(** * dirdiff: file and directory comparison

    A shallow embedding of [dirdiff.py] (a modified copy of Python's
    [filecmp]): the caching file-equality test [cmp], the directory
    comparison phases of [dircmp] and [cmpfiles], together with the
    properties of the design document that concern them.

    Conventions of the embedding:
    - the filesystem is a finite map from paths to nodes, fixed during a call;
    - the module-level [_cache] and the I/O performed on file contents are
      threaded through a state-and-exception monad;
    - [os.path.normcase] and [os.path.join] are platform functions and are
      taken as section variables;
    - [int / int] is Python's true division: the binary64 value nearest to the
      exact quotient, ties to even.  The operands are file sizes, below
      [2 ^ 63], so that the quotient of two non-zero sizes is a normal number
      and overflow and gradual underflow play no role;
    - the diagnostic [print] calls are left out, except that the one of
      [_is_similar] divides like the expression it precedes. *)

From Stdlib Require Import ZArith Lia Bool.
From Stdlib Require Strings.Byte.
From stdpp Require Import base option list strings gmap fin_maps sorting.
From Equations Require Import Equations.

Local Open Scope Z_scope.

(** ** Binary64 quotients of integers *)

Module Float.

(** A finite binary64 value, written [mant * 2 ^ expo]. *)
Record t : Type := mk { mant : Z; expo : Z }.

(** [x <= y] on the values denoted. *)
Definition leb (x y : t) : bool :=
  if expo x <=? expo y
  then mant x <=? mant y * 2 ^ (expo y - expo x)
  else mant x * 2 ^ (expo x - expo y) <=? mant y.

Definition geb (x y : t) : bool := leb y x.

(** Numerator and denominator of [a / (b * 2 ^ k)], for any sign of [k]. *)
Definition num (a k : Z) : Z := a * 2 ^ Z.max 0 (- k).
Definition den (b k : Z) : Z := b * 2 ^ Z.max 0 k.

(** [floor (log2 (a / b))] for positive [a] and [b]. *)
Definition quot_log2 (a b : Z) : Z :=
  let l := Z.log2 a - Z.log2 b in
  if num a l <? den b l then l - 1 else l.

(** [n / d] rounded to the nearest integer, ties to even. *)
Definition nearest_even (n d : Z) : Z :=
  let m := n / d in
  let r := n mod d in
  if 2 * r <? d then m
  else if d <? 2 * r then m + 1
  else if Z.even m then m else m + 1.

(** The quotient of two positive integers rounded to 53 significant bits,
    nearest, ties to even.  For operands below [2 ^ 63] (file sizes) the
    quotient lies in the normal range of binary64. *)
Definition round_quot (a b : Z) : t :=
  let e := quot_log2 a b - 52 in
  mk (nearest_even (num a e) (den b e)) e.

(** Python's [a / b] on integers; [None] is [ZeroDivisionError]. *)
Definition true_div (a b : Z) : option t :=
  if b =? 0 then None
  else if a =? 0 then Some (mk 0 0)
  else let q := round_quot (Z.abs a) (Z.abs b) in
       Some (mk (Z.sgn a * Z.sgn b * mant q) (expo q)).

(** The literals [0.8] (that is [0x1.999999999999ap-1]) and [1.25]. *)
Definition lit_0_8 : t := mk 7205759403792794 (-53).
Definition lit_1_25 : t := mk 5629499534213120 (-52).

End Float.

(** ** Exceptions, the filesystem and the process state *)

Inductive exn : Type := OSError | ZeroDivisionError | KeyError | IndexError.

Inductive result (A : Type) : Type :=
| Ok (a : A)
| Raise (e : exn).
Arguments Ok {A} a.
Arguments Raise {A} e.

#[global] Instance exn_eq_dec : EqDecision exn.
Proof. solve_decision. Defined.

#[global] Instance byte_eq_dec : EqDecision Byte.byte := Strings.Byte.byte_eq_dec.

(** What [os.stat] returns, restricted to the fields the program reads.
    [st_mtime] is only ever compared for equality (inside cache keys), so the
    timestamp is held as an integer code of the binary64 value. *)
Record stat_result : Type := {
  st_mode : Z;
  st_size : Z;
  st_mtime : Z;
}.

(** A path that can be stat'ed.  [n_data] is the byte stream delivered by
    [open(p, 'rb')] ([None]: opening fails with [OSError]); [n_list] is what
    [os.listdir] returns ([None]: listing fails with [OSError]). *)
Record node : Type := {
  n_stat : stat_result;
  n_data : option (list Byte.byte);
  n_list : option (list string);
}.

(** A path absent from the map cannot be stat'ed ([os.stat] raises
    [OSError]). *)
Abbreviation filesystem := (gmap string node).

(** [stat.S_IFMT], [stat.S_IFREG], [stat.S_IFDIR], [stat.S_ISDIR] and
    [stat.S_ISREG]. *)
Definition S_IFMT (mode : Z) : Z := Z.land mode 61440.   (* 0o170000 *)
Definition S_IFDIR : Z := 16384.                         (* 0o040000 *)
Definition S_IFREG : Z := 32768.                         (* 0o100000 *)
Definition S_ISDIR (mode : Z) : bool := S_IFMT mode =? S_IFDIR.
Definition S_ISREG (mode : Z) : bool := S_IFMT mode =? S_IFREG.

(** The triple built by [_sig]. *)
Definition signature : Type := Z * Z * Z.

Definition _sig (st : stat_result) : signature :=
  (S_IFMT (st_mode st), st_size st, st_mtime st).

(** Keys of [_cache]: [(f1, f2, s1, s2)]. *)
Definition cache_key : Type := string * string * signature * signature.

(** Content I/O, recorded so that "no content is read" can be stated:
    opening a file for reading, and one [read] call with the number of
    bytes it delivered. *)
Inductive event : Type :=
| EvOpen (p : string)
| EvRead (p : string) (n : nat).

(** The mutable process state: the module-level [_cache] and the log of
    content I/O. *)
Record world : Type := {
  cache : gmap cache_key bool;
  trace : list event;
}.

Definition M (A : Type) : Type := world → result A * world.

Definition ret {A} (a : A) : M A := λ w, (Ok a, w).
Definition raise {A} (e : exn) : M A := λ w, (Raise e, w).
Definition bind {A B} (m : M A) (k : A → M B) : M B :=
  λ w, match m w with
       | (Ok a, w') => k a w'
       | (Raise e, w') => (Raise e, w')
       end.

Definition lift {A} (r : result A) : M A := λ w, (r, w).

(** [try: m except e: h]. *)
Definition try_except {A} (m : M A) (e : exn) (h : M A) : M A :=
  λ w, match m w with
       | (Raise e', w') => if decide (e' = e) then h w' else (Raise e', w')
       | ok => ok
       end.

Declare Scope py_scope.
Delimit Scope py_scope with py.
Notation "x <- m ;; k" := (bind m (λ x, k))
  (at level 100, m at next level, right associativity) : py_scope.
Notation "m ;;; k" := (bind m (λ _, k))
  (at level 100, right associativity) : py_scope.
Local Open Scope py_scope.

Definition BUFSIZE : nat := Z.to_nat (8 * 1024).

Definition inspect {A} (a : A) : {b : A | a = b} := exist _ a eq_refl.

(** ** The file-equality test [cmp] *)

Section Cmp.
Context (fs : filesystem).

(** [os.stat(p)] for a path that the call accepts: a path without an
    embedded NUL character, for which a failure is an [OSError].  (For a
    path with a NUL the call raises [ValueError] before it reaches the
    file system; no such path comes out of [os.listdir].) *)
Definition os_stat (p : string) : result stat_result :=
  match fs !! p with
  | Some n => Ok (n_stat n)
  | None => Raise OSError
  end.

(** [open(p, 'rb')]: the handle is the stream that remains to be read. *)
Definition open_rb (p : string) : M (list Byte.byte) :=
  λ w, match fs !! p ≫= n_data with
       | Some c => (Ok c, {| cache := cache w; trace := trace w ++ [EvOpen p] |})
       | None => (Raise OSError, w)
       end.

(** [clear_cache]. *)
Definition clear_cache : M unit :=
  λ w, (Ok tt, {| cache := ∅; trace := trace w |}).

Definition cache_get (k : cache_key) : M (option bool) :=
  λ w, (Ok (cache w !! k), w).

Definition cache_len : M nat :=
  λ w, (Ok (size (cache w)), w).

Definition cache_set (k : cache_key) (v : bool) : M unit :=
  λ w, (Ok tt, {| cache := <[k := v]> (cache w); trace := trace w |}).

(** [_is_similar]: both the diagnostic [print] and the returned expression
    evaluate [s1/s2], which raises when [s2] is zero. *)
Definition _is_similar (s1 s2 : Z) : M bool :=
  match Float.true_div s1 s2 with
  | None => raise ZeroDivisionError
  | Some q => ret (Float.geb q Float.lit_0_8 && Float.leb q Float.lit_1_25)
  end.

Definition log (evs : list event) : M unit :=
  λ w, (Ok tt, {| cache := cache w; trace := trace w ++ evs |}).

(** The [while True] loop of [_do_cmp] on the two open streams: each round
    reads one chunk of at most [bufsize] bytes from either stream.  The
    result comes with the reads performed. *)
Equations? read_loop (f1 f2 : string) (bufsize : nat)
    (fp1 fp2 : list Byte.byte) : bool * list event
  by wf (length fp1) lt :=
  read_loop f1 f2 bufsize fp1 fp2 with inspect (take bufsize fp1) := {
    | exist _ b1 Hb1 with bool_decide (b1 ≠ take bufsize fp2) := {
      | true :=
          (false, [EvRead f1 (length b1); EvRead f2 (length (take bufsize fp2))])
      | false with b1 := {
        | [] := (true, [EvRead f1 0; EvRead f2 0])
        | x :: b :=
            let r := read_loop f1 f2 bufsize (drop bufsize fp1) (drop bufsize fp2) in
            (r.1, EvRead f1 (S (length b)) :: EvRead f2 (S (length b)) :: r.2) } } }.
Proof.
  rewrite length_drop.
  destruct bufsize as [|k]; [discriminate|].
  destruct fp1 as [|y fp1]; [discriminate|].
  cbn [length]. lia.
Qed.

Definition _do_cmp (f1 f2 : string) : M bool :=
  let bufsize := BUFSIZE in
  fp1 <- open_rb f1;;
  fp2 <- open_rb f2;;
  let r := read_loop f1 f2 bufsize fp1 fp2 in
  log r.2;;;
  ret r.1.

Definition cmp (f1 f2 : string) (shallow : bool) : M bool :=
  st1 <- lift (os_stat f1);;
  st2 <- lift (os_stat f2);;
  let s1 := _sig st1 in
  let s2 := _sig st2 in
  if negb (s1.1.1 =? S_IFREG) || negb (s2.1.1 =? S_IFREG) then ret false else
  similar <- (if shallow
              then (a <- lift (os_stat f1);;
                    b <- lift (os_stat f2);;
                    _is_similar (st_size a) (st_size b))
              else ret false);;
  if similar then ret true else
  if negb (s1.1.2 =? s2.1.2) then ret false else
  outcome <- cache_get (f1, f2, s1, s2);;
  match outcome with
  | Some o => ret o
  | None =>
      o <- _do_cmp f1 f2;;
      n <- cache_len;;
      (if (100 <? n)%nat then clear_cache else ret tt);;;
      cache_set (f1, f2, s1, s2) o;;;
      ret o
  end.

(** [_cmp]: [not abs(cmp(a, b, sh))] is [False] (index 0) for equal files
    and [True] (index 1) for different ones; an [OSError] gives 2. *)
Definition _cmp (a b : string) (sh : bool) : M nat :=
  try_except
    (r <- cmp a b sh;; ret (Nat.b2n (Z.abs (Z.b2z r) =? 0)))
    OSError
    (ret 2%nat).

End Cmp.

(** ** Directory comparison *)

Definition DEFAULT_IGNORES : list string :=
  ["RCS"; "CVS"; "tags"; ".git"; ".hg"; ".bzr"; "_darcs"; "__pycache__"]%string.

Definition os_curdir : string := ".".
Definition os_pardir : string := "..".

(** [_filter]: a copy of [flist] without the items that occur in [skip]. *)
Definition _filter (flist skip : list string) : list string :=
  filter (λ x, x ∉ skip) flist.

(** [list.sort] on strings. *)
Definition str_le (x y : string) : Prop := String.leb x y.
Definition list_sort (l : list string) : list string := merge_sort str_le l.

(** A Python [dict] from strings to strings: the items in insertion order.
    Assigning to a key already present replaces its value in place. *)
Definition dict : Type := list (string * string).

Fixpoint dict_setitem (d : dict) (k v : string) : dict :=
  match d with
  | [] => [(k, v)]
  | (k', v') :: d' =>
      if decide (k' = k) then (k', v) :: d' else (k', v') :: dict_setitem d' k v
  end.

Definition dict_of_pairs (kvs : list (string * string)) : dict :=
  foldl (λ d kv, dict_setitem d kv.1 kv.2) [] kvs.

Definition dict_iter (d : dict) : list string := d.*1.

Definition dict_contains (d : dict) (k : string) : bool :=
  bool_decide (k ∈ d.*1).

Fixpoint dict_getitem (d : dict) (k : string) : result string :=
  match d with
  | [] => Raise KeyError
  | (k', v) :: d' => if decide (k' = k) then Ok v else dict_getitem d' k
  end.

Fixpoint map_result {A B} (f : A → result B) (l : list A) : result (list B) :=
  match l with
  | [] => Ok []
  | x :: l' =>
      match f x with
      | Raise e => Raise e
      | Ok y => match map_result f l' with
                | Raise e => Raise e
                | Ok ys => Ok (y :: ys)
                end
      end
  end.

(** The three result lists of [cmpfiles] and of [phase2]. *)
Definition buckets : Type := list string * list string * list string.

(** [res[i].append(x)] on a 3-tuple of lists. *)
Definition bucket_append (res : buckets) (i : nat) (x : string) : result buckets :=
  let '(r0, r1, r2) := res in
  match i with
  | 0%nat => Ok (r0 ++ [x], r1, r2)
  | 1%nat => Ok (r0, r1 ++ [x], r2)
  | 2%nat => Ok (r0, r1, r2 ++ [x])
  | _ => Raise IndexError
  end.

(** The object built by [dircmp.__init__]. *)
Record dircmp : Type := {
  left : string;
  right : string;
  hide : list string;
  ignore : list string;
}.

Definition dircmp_init (a b : string) (ignore hide : option (list string)) : dircmp :=
  {| left := a;
     right := b;
     hide := default [os_curdir; os_pardir] hide;
     ignore := default DEFAULT_IGNORES ignore |}.

Section Dircmp.
Context (normcase : string → string) (join : string → string → string).
Context (fs : filesystem).

Definition os_listdir (p : string) : result (list string) :=
  match fs !! p ≫= n_list with
  | Some l => Ok l
  | None => Raise OSError
  end.

(** [cmpfiles]: the loop, from the buckets filled so far. *)
Fixpoint cmpfiles_loop (a b : string) (shallow : bool) (res : buckets)
    (common : list string) : M buckets :=
  match common with
  | [] => ret res
  | x :: rest =>
      let ax := join a x in
      let bx := join b x in
      i <- _cmp fs ax bx shallow;;
      res' <- lift (bucket_append res i x);;
      cmpfiles_loop a b shallow res' rest
  end.

Definition cmpfiles (a b : string) (common : list string) (shallow : bool) : M buckets :=
  cmpfiles_loop a b shallow ([], [], []) common.

(** [phase0]: [(left_list, right_list)]. *)
Definition phase0 (self : dircmp) : result (list string * list string) :=
  match os_listdir (left self) with
  | Raise e => Raise e
  | Ok l =>
      match os_listdir (right self) with
      | Raise e => Raise e
      | Ok r =>
          Ok (list_sort (_filter l (hide self ++ ignore self)),
              list_sort (_filter r (hide self ++ ignore self)))
      end
  end.

(** [phase1]: [(common, left_only, right_only)]. *)
Definition phase1 (left_list right_list : list string) : result buckets :=
  let a := dict_of_pairs (zip (normcase <$> left_list) left_list) in
  let b := dict_of_pairs (zip (normcase <$> right_list) right_list) in
  match map_result (dict_getitem a) (filter (λ k, dict_contains b k) (dict_iter a)) with
  | Raise e => Raise e
  | Ok common =>
      match map_result (dict_getitem a)
              (filter (λ k, ¬ dict_contains b k) (dict_iter a)) with
      | Raise e => Raise e
      | Ok left_only =>
          match map_result (dict_getitem b)
                  (filter (λ k, ¬ dict_contains a k) (dict_iter b)) with
          | Raise e => Raise e
          | Ok right_only => Ok (common, left_only, right_only)
          end
      end
  end.

(** One round of the loop of [phase2], on
    [(common_dirs, common_files, common_funny)]. *)
Definition phase2_step (self : dircmp) (acc : buckets) (x : string) : buckets :=
  let '(common_dirs, common_files, common_funny) := acc in
  let a_path := join (left self) x in
  let b_path := join (right self) x in
  match os_stat fs a_path, os_stat fs b_path with
  | Ok a_stat, Ok b_stat =>
      let a_type := S_IFMT (st_mode a_stat) in
      let b_type := S_IFMT (st_mode b_stat) in
      if negb (a_type =? b_type) then (common_dirs, common_files, common_funny ++ [x])
      else if S_ISDIR a_type then (common_dirs ++ [x], common_files, common_funny)
      else if S_ISREG a_type then (common_dirs, common_files ++ [x], common_funny)
      else (common_dirs, common_files, common_funny ++ [x])
  | _, _ => (common_dirs, common_files, common_funny ++ [x])
  end.

Definition phase2 (self : dircmp) (common : list string) : buckets :=
  foldl (phase2_step self) ([], [], []) common.

(** [phase3]: [(same_files, diff_files, funny_files)]. *)
Definition phase3 (self : dircmp) (common_files : list string) : M buckets :=
  cmpfiles (left self) (right self) common_files true.

(** The attributes as [__getattr__] computes them: each group runs the
    phases it depends on. *)
Definition attr_names (self : dircmp) : result buckets :=
  match phase0 self with
  | Raise e => Raise e
  | Ok (left_list, right_list) => phase1 left_list right_list
  end.

Definition attr_kinds (self : dircmp) : result buckets :=
  match attr_names self with
  | Raise e => Raise e
  | Ok (common, _, _) => Ok (phase2 self common)
  end.

Definition attr_files (self : dircmp) : M buckets :=
  k <- lift (attr_kinds self);;
  phase3 self k.1.2.

End Dircmp.

(** ** Reports *)

(** The characters ['\t'] and ['\n']. *)
Definition tab : string := String (Ascii.ascii_of_nat 9) EmptyString.
Definition nl : string := String (Ascii.ascii_of_nat 10) EmptyString.

(** A text file open for writing is modelled by the strings passed to its
    [write] method, in order; its content is their concatenation. *)

(** [to_file]: one line per item, then two empty lines. *)
Definition to_file (items : list string) : list string :=
  ((λ item, tab +:+ item +:+ nl) <$> items) ++ [nl +:+ nl].

(** [if l: l.sort(); file.write(title); to_file(l, file)]. *)
Definition report_section (title : string) (l : list string) : list string :=
  match l with
  | [] => []
  | _ => title :: to_file (list_sort l)
  end.

(** A dictionary whose values are [dircmp] objects, in insertion order. *)
Fixpoint subdirs_setitem (d : list (string * dircmp)) (k : string) (v : dircmp)
    : list (string * dircmp) :=
  match d with
  | [] => [(k, v)]
  | (k', v') :: d' =>
      if decide (k' = k) then (k', v) :: d' else (k', v') :: subdirs_setitem d' k v
  end.

Section Reports.
Context (normcase : string → string) (join : string → string → string).
Context (fs : filesystem).

(** The two writes that open [report_mod]. *)
Definition report_head (self : dircmp) : list string :=
  [nl +:+ "COMPARISON OF FILES BETWEEN FOLDERS:" +:+ nl +:+ nl;
   left self +:+ nl +:+ " and " +:+ nl +:+ right self +:+ nl].

(** [report_mod]: the outcome, what was written to the file, and the
    process state.  What was written before an exception stays written. *)
Definition report_mod (self : dircmp) (w : world)
    : result unit * list string * world :=
  let out := report_head self in
  match attr_names normcase fs self with
  | Raise e => (Raise e, out, w)
  | Ok (_, left_only, right_only) =>
      let out :=
        out ++ report_section (nl +:+ "Only in " +:+ left self +:+ ":" +:+ nl) left_only
            ++ report_section (nl +:+ "Only in " +:+ right self +:+ ":" +:+ nl) right_only in
      match attr_files normcase join fs self w with
      | (Raise e, w') => (Raise e, out, w')
      | (Ok (same_files, diff_files, funny_files), w') =>
          match attr_kinds normcase join fs self with
          | Raise e => (Raise e, out, w')
          | Ok (common_dirs, _, common_funny) =>
              (Ok tt,
               out ++ report_section (nl +:+ "Similar files :" +:+ nl) same_files
                   ++ report_section (nl +:+ "Differing files :" +:+ nl) diff_files
                   ++ report_section (nl +:+ "Trouble with common files :" +:+ nl) funny_files
                   ++ report_section (nl +:+ "Common subdirectories :" +:+ nl) common_dirs
                   ++ report_section (nl +:+ "Common funny cases :" +:+ nl) common_funny,
               w')
          end
      end
  end.

(** [phase4]: one fresh [dircmp] per common subdirectory, with the ignore
    and hide lists of the parent. *)
Definition phase4 (self : dircmp) (common_dirs : list string)
    : list (string * dircmp) :=
  foldl (λ subdirs x,
           let a_x := join (left self) x in
           let b_x := join (right self) x in
           subdirs_setitem subdirs x
             (dircmp_init a_x b_x (Some (ignore self)) (Some (hide self))))
        [] common_dirs.

(** The loop of [report_full_closure] over [subdirs.values()], given the
    recursive call. *)
Fixpoint closure_loop
    (rec : dircmp → world → option (result unit * list string * world))
    (sds : list dircmp) (out : list string) (w : world)
    : option (result unit * list string * world) :=
  match sds with
  | [] => Some (Ok tt, out, w)
  | sd :: rest =>
      match rec sd w with
      | None => None
      | Some (Raise e, o, w') => Some (Raise e, out ++ o, w')
      | Some (Ok _, o, w') => closure_loop rec rest (out ++ o) w'
      end
  end.

(** [report_full_closure], with a bound on the depth of the recursion
    ([None]: the bound is reached).  [report_mod] has sorted
    [common_dirs] in place by the time [phase4] reads it. *)
Fixpoint report_full_closure (fuel : nat) (self : dircmp) (w : world)
    : option (result unit * list string * world) :=
  match fuel with
  | O => None
  | S n =>
      match report_mod self w with
      | (Raise e, out, w') => Some (Raise e, out, w')
      | (Ok _, out, w') =>
          match attr_kinds normcase join fs self with
          | Raise e => Some (Raise e, out, w')
          | Ok (common_dirs, _, _) =>
              closure_loop (report_full_closure n)
                (phase4 self (list_sort common_dirs)).*2 out w'
          end
      end
  end.

End Reports.

(** ** The object and its computed attributes *)

(** What a method can raise besides the exceptions of the comparison:
    [__getattr__] raises [AttributeError] for a name that is not in
    [methodmap], and a [__getattr__] that keeps calling itself ends in
    [RecursionError]. *)
Inductive error : Type :=
| AttributeError (attr : string)
| RecursionError
| Error (e : exn).

Inductive outcome (A : Type) : Type :=
| Return (a : A)
| Raised (e : error).
Arguments Return {A} a.
Arguments Raised {A} e.

(** The value of a computed attribute: a list of names, or the dictionary
    [subdirs]. *)
Inductive value : Type :=
| VList (l : list string)
| VSubdirs (d : list (string * dircmp)).

(** An instance: the four attributes set by [__init__], and the instance
    dictionary for the names of [methodmap], which is empty after
    [__init__]. *)
Record object : Type := {
  args : dircmp;
  lists : gmap string (list string);
  subdirs : option (list (string * dircmp));
}.

Definition fresh (self : dircmp) : object :=
  {| args := self; lists := ∅; subdirs := None |}.

(** A method: it changes the instance and the process state, also when it
    raises. *)
Definition Method (A : Type) : Type := object → world → outcome A * object * world.

(** The normal attribute lookup, for the names of [methodmap] only.  The
    attributes set by [__init__] ([left], [right], [hide], [ignore]) and the
    attributes of the class (the methods, [methodmap]) are always found by
    the normal lookup, so that reading them never reaches [__getattr__];
    they are not part of this model. *)
Definition stored (o : object) (attr : string) : option value :=
  if decide (attr = "subdirs") then VSubdirs <$> subdirs o
  else VList <$> lists o !! attr.

(** [self.attr = l]. *)
Definition set_list (o : object) (attr : string) (l : list string) : object :=
  {| args := args o; lists := <[attr := l]> (lists o); subdirs := subdirs o |}.

(** [self.subdirs = d]. *)
Definition set_subdirs (o : object) (d : list (string * dircmp)) : object :=
  {| args := args o; lists := lists o; subdirs := Some d |}.

(** [self.attr.sort()] on a stored list. *)
Definition sort_list (o : object) (attr : string) : object :=
  match lists o !! attr with
  | Some l => set_list o attr (list_sort l)
  | None => o
  end.

(** Iterating over a value: a list gives its items, a dictionary its keys. *)
Definition as_list (v : value) : list string :=
  match v with
  | VList l => l
  | VSubdirs d => d.*1
  end.

Fixpoint methodmap_get (methodmap : list (string * Method unit)) (attr : string)
    : option (Method unit) :=
  match methodmap with
  | [] => None
  | (k, phase) :: rest => if decide (k = attr) then Some phase else methodmap_get rest attr
  end.

(** [__getattr__], for a given [methodmap]: run the phase, then look the
    attribute up again.  A phase that returned without setting the
    attribute would make the lookup call [__getattr__] again, without
    end. *)
Definition getattr_hook (methodmap : list (string * Method unit)) (attr : string)
    : Method value :=
  λ o w,
    match methodmap_get methodmap attr with
    | None => (Raised (AttributeError attr), o, w)
    | Some phase =>
        match phase o w with
        | (Raised e, o', w') => (Raised e, o', w')
        | (Return _, o', w') =>
            match stored o' attr with
            | Some v => (Return v, o', w')
            | None => (Raised RecursionError, o', w')
            end
        end
    end.

(** [self.attr]: the stored value, else [__getattr__]. *)
Definition getattr_with (methodmap : list (string * Method unit)) (attr : string)
    : Method value :=
  λ o w,
    match stored o attr with
    | Some v => (Return v, o, w)
    | None => getattr_hook methodmap attr o w
    end.

Section Object.
Context (normcase : string → string) (join : string → string → string).
Context (fs : filesystem).

(** [phase0] as a method: [left_list] is set before the right directory
    is listed, and both are sorted at the end. *)
Definition method_phase0 : Method unit :=
  λ o w,
    let skip := hide (args o) ++ ignore (args o) in
    match os_listdir fs (left (args o)) with
    | Raise e => (Raised (Error e), o, w)
    | Ok l =>
        let o := set_list o "left_list" (_filter l skip) in
        match os_listdir fs (right (args o)) with
        | Raise e => (Raised (Error e), o, w)
        | Ok r =>
            let o := set_list o "right_list" (_filter r skip) in
            let o := sort_list o "left_list" in
            let o := sort_list o "right_list" in
            (Return tt, o, w)
        end
    end.

Definition methodmap0 : list (string * Method unit) :=
  [("left_list", method_phase0); ("right_list", method_phase0)]%string.

(** [phase1] as a method: it reads [left_list], then [right_list]. *)
Definition method_phase1 : Method unit :=
  λ o w,
    match getattr_with methodmap0 "left_list" o w with
    | (Raised e, o, w) => (Raised e, o, w)
    | (Return left_list, o, w) =>
        match getattr_with methodmap0 "right_list" o w with
        | (Raised e, o, w) => (Raised e, o, w)
        | (Return right_list, o, w) =>
            match phase1 normcase (as_list left_list) (as_list right_list) with
            | Raise e => (Raised (Error e), o, w)
            | Ok (common, left_only, right_only) =>
                let o := set_list o "common" common in
                let o := set_list o "left_only" left_only in
                let o := set_list o "right_only" right_only in
                (Return tt, o, w)
            end
        end
    end.

Definition methodmap1 : list (string * Method unit) :=
  [("common", method_phase1); ("left_only", method_phase1);
   ("right_only", method_phase1)]%string ++ methodmap0.

(** [phase2] as a method: the three lists are set to [[]] before
    [common] is read. *)
Definition method_phase2 : Method unit :=
  λ o w,
    let o := set_list o "common_dirs" [] in
    let o := set_list o "common_files" [] in
    let o := set_list o "common_funny" [] in
    match getattr_with methodmap1 "common" o w with
    | (Raised e, o, w) => (Raised e, o, w)
    | (Return common, o, w) =>
        let '(common_dirs, common_files, common_funny) :=
          phase2 join fs (args o) (as_list common) in
        let o := set_list o "common_dirs" common_dirs in
        let o := set_list o "common_files" common_files in
        let o := set_list o "common_funny" common_funny in
        (Return tt, o, w)
    end.

Definition methodmap2 : list (string * Method unit) :=
  [("common_dirs", method_phase2); ("common_files", method_phase2);
   ("common_funny", method_phase2)]%string ++ methodmap1.

(** [phase3] as a method. *)
Definition method_phase3 : Method unit :=
  λ o w,
    match getattr_with methodmap2 "common_files" o w with
    | (Raised e, o, w) => (Raised e, o, w)
    | (Return common_files, o, w) =>
        match cmpfiles join fs (left (args o)) (right (args o))
                (as_list common_files) true w with
        | (Raise e, w) => (Raised (Error e), o, w)
        | (Ok (same_files, diff_files, funny_files), w) =>
            let o := set_list o "same_files" same_files in
            let o := set_list o "diff_files" diff_files in
            let o := set_list o "funny_files" funny_files in
            (Return tt, o, w)
        end
    end.

(** [phase4] as a method: [subdirs] is set to [{}] before [common_dirs]
    is read. *)
Definition method_phase4 : Method unit :=
  λ o w,
    let o := set_subdirs o [] in
    match getattr_with methodmap2 "common_dirs" o w with
    | (Raised e, o, w) => (Raised e, o, w)
    | (Return common_dirs, o, w) =>
        (Return tt, set_subdirs o (phase4 join (args o) (as_list common_dirs)), w)
    end.

(** [methodmap], in the order of the source.  The maps above are its
    tails: a phase reads attributes of earlier phases only. *)
Definition methodmap : list (string * Method unit) :=
  [("subdirs", method_phase4);
   ("same_files", method_phase3); ("diff_files", method_phase3);
   ("funny_files", method_phase3)]%string ++ methodmap2.

Definition __getattr__ : string → Method value := getattr_hook methodmap.

(** [self.attr] for a name of [methodmap]; for other names see
    [stored]. *)
Definition getattr : string → Method value := getattr_with methodmap.

End Object.

(** ** Notions used to state the properties *)

(** The test of [_is_similar] on the exact quotient: [s1/s2] rounds to at
    least [0.8] and to at most [1.25]. *)
Definition similar_sizes (s1 s2 : Z) : bool :=
  (14411518807585587 * s2 <=? 2 ^ 54 * s1) && (2 ^ 53 * s1 <=? 11258999068426241 * s2).

(** A node that [stat] reports as a regular file. *)
Definition regular (n : node) : Prop := S_IFMT (st_mode (n_stat n)) = S_IFREG.

(** The cache key [cmp] builds for two paths and their nodes. *)
Definition key_of (f1 f2 : string) (n1 n2 : node) : cache_key :=
  (f1, f2, _sig (n_stat n1), _sig (n_stat n2)).

(** A cache agrees with the filesystem when every outcome stored under the
    current signatures of two paths is the equality of their current
    contents.  The empty cache does, and [cmp] keeps it so. *)
Definition coherent (fs : filesystem) (c : gmap cache_key bool) : Prop :=
  ∀ f1 f2 n1 n2 v,
    fs !! f1 = Some n1 → fs !! f2 = Some n2 →
    c !! key_of f1 f2 n1 n2 = Some v →
    ∃ c1 c2, n_data n1 = Some c1 ∧ n_data n2 = Some c2 ∧ v = bool_decide (c1 = c2).

(** The state of a fresh process. *)
Definition world0 : world := {| cache := ∅; trace := [] |}.

(** Deep comparisons of a list of pairs, one after the other. *)
Definition run_cmps (fs : filesystem) (pairs : list (string * string)) (w : world) : world :=
  foldl (λ w p, (cmp fs p.1 p.2 false w).2) w pairs.

(** Bucket-wise concatenation. *)
Definition bucket_app (p q : buckets) : buckets :=
  (p.1.1 ++ q.1.1, p.1.2 ++ q.1.2, p.2 ++ q.2).

(** The names held by three buckets. *)
Definition bucket_all (p : buckets) : list string := p.1.1 ++ p.1.2 ++ p.2.

(** The pair of entries [x] of two directories makes [_is_similar] divide by
    zero: both are regular files and the second one is empty. *)
Definition zero_divisor_pair (join : string → string → string) (fs : filesystem)
    (a b x : string) : Prop :=
  ∃ n1 n2, fs !! join a x = Some n1 ∧ fs !! join b x = Some n2 ∧
           regular n1 ∧ regular n2 ∧ st_size (n_stat n2) = 0.

(** ** Platform functions *)

(** [os.path.join] for a directory and one entry name, as on POSIX when the
    directory is non-empty and the name is relative. *)
Definition posix_join (a x : string) : string := a +:+ "/" +:+ x.

(** [os.path.normcase] as Windows has it ([ntpath.normcase]), on ASCII
    names: slashes become backslashes and capital letters are lowered.  On
    POSIX [os.path.normcase] is the identity. *)
Definition nt_normcase_char (c : Ascii.ascii) : Ascii.ascii :=
  let n := Ascii.nat_of_ascii c in
  if (n =? 47)%nat then Ascii.ascii_of_nat 92
  else if (65 <=? n)%nat && (n <=? 90)%nat then Ascii.ascii_of_nat (n + 32)
  else c.

Fixpoint nt_normcase (s : string) : string :=
  match s with
  | EmptyString => EmptyString
  | String c s' => String (nt_normcase_char c) (nt_normcase s')
  end.

(** ** Concrete filesystems *)

(** A regular file (mode [0o100644]) and a directory (mode [0o40755]). *)
Definition regular_file (size mtime : Z) (data : option (list Byte.byte)) : node :=
  {| n_stat := {| st_mode := 33188; st_size := size; st_mtime := mtime |};
     n_data := data;
     n_list := None |}.

Definition directory (entries : list string) : node :=
  {| n_stat := {| st_mode := 16877; st_size := 4096; st_mtime := 0 |};
     n_data := None;
     n_list := Some entries |}.

Definition zeros (n : nat) : list Byte.byte := replicate n Byte.x00.

(** A regular file of [n] zero bytes. *)
Definition zero_file (n : nat) (mtime : Z) : node :=
  regular_file (Z.of_nat n) mtime (Some (zeros n)).

(** Two files with the same three bytes and different modification times,
    an empty file and a directory. *)
Definition fs_small : filesystem :=
  list_to_map
    [("a", regular_file 3 1 (Some [Byte.x61; Byte.x62; Byte.x63]));
     ("b", regular_file 3 2 (Some [Byte.x61; Byte.x62; Byte.x63]));
     ("c", regular_file 3 2 (Some [Byte.x61; Byte.x62; Byte.x64]));
     ("empty", regular_file 0 2 (Some []));
     ("d", directory [])]%string.

(** Files of 100, 110 and 200 bytes. *)
Definition fs_sizes : filesystem :=
  list_to_map
    [("f100", zero_file 100 1);
     ("f110", zero_file 110 1);
     ("f200", zero_file 200 1)]%string.

(** Two sparse files of 3200000000000003 and 4000000000000004 bytes; their
    contents play no role. *)
Definition fs_huge : filesystem :=
  list_to_map
    [("p", regular_file 3200000000000003 1 None);
     ("q", regular_file 4000000000000004 1 None)]%string.

(** Eleven one-byte files: 121 ordered pairs, hence 121 distinct cache keys. *)
Definition many_names : list string :=
  ["f00"; "f01"; "f02"; "f03"; "f04"; "f05"; "f06"; "f07"; "f08"; "f09"; "f10"]%string.

Definition fs_many : filesystem :=
  list_to_map ((λ f, (f, zero_file 1 1)) <$> many_names).

Definition many_pairs : list (string * string) :=
  flat_map (λ a, pair a <$> many_names) many_names.

(** Two trees: [L] holds [a.txt] and [sub/x.txt]; [R] holds [a.txt],
    [b.txt] and [sub/y.txt]; both hold a [.git] directory. *)
Definition fs_tree : filesystem :=
  list_to_map
    [("L", directory ["sub"; "a.txt"; ".git"]);
     ("L/a.txt", zero_file 3 1);
     ("L/sub", directory ["x.txt"]);
     ("L/sub/x.txt", zero_file 1 1);
     ("L/.git", directory []);
     ("R", directory ["b.txt"; "sub"; ".git"; "a.txt"]);
     ("R/a.txt", zero_file 3 2);
     ("R/b.txt", zero_file 2 2);
     ("R/sub", directory ["y.txt"]);
     ("R/sub/y.txt", zero_file 1 1);
     ("R/.git", directory [])]%string.

(** Two directories with three common names: [e] is empty on the right,
    [g] is a pair of three-byte files, and [ghost] is listed on both sides
    but cannot be stat'ed on the left (a dangling link). *)
Definition fs_odd : filesystem :=
  list_to_map
    [("L", directory ["e"; "g"; "ghost"]);
     ("L/e", zero_file 5 1);
     ("L/g", zero_file 3 1);
     ("R", directory ["e"; "g"; "ghost"]);
     ("R/e", zero_file 0 1);
     ("R/g", zero_file 3 1);
     ("R/ghost", zero_file 3 1)]%string.

(** Files around the chunk boundary: empty, one byte, and 8193 bytes, the
    last differing from the others in its final byte only. *)
Definition fs_chunks : filesystem :=
  list_to_map
    [("e1", zero_file 0 1);
     ("e2", zero_file 0 1);
     ("o1", zero_file 1 1);
     ("o2", zero_file 1 1);
     ("z1", zero_file (S BUFSIZE) 1);
     ("z2", zero_file (S BUFSIZE) 1);
     ("z3", regular_file (Z.of_nat (S BUFSIZE)) 1 (Some (zeros BUFSIZE ++ [Byte.x01])%list))]%string.

(** Two directories that spell one file name differently. *)
Definition fs_case : filesystem :=
  list_to_map
    [("L", directory ["Readme.txt"]);
     ("L/Readme.txt", zero_file 3 1);
     ("R", directory ["README.TXT"]);
     ("R/README.TXT", zero_file 3 1)]%string.


(** [fs_small] after an edit of [b] that keeps its size and modification
    time, and after one that changes its modification time as well. *)
Definition fs_small_edited : filesystem :=
  <["b"%string := regular_file 3 2 (Some [Byte.x61; Byte.x62; Byte.x7a])]> fs_small.

Definition fs_small_touched : filesystem :=
  <["b"%string := regular_file 3 5 (Some [Byte.x61; Byte.x62; Byte.x7a])]> fs_small.

(** [fs_small] with the content of [b] made unreadable. *)
Definition fs_small_locked : filesystem :=
  <["b"%string := regular_file 3 2 None]> fs_small.

(** Two directories with one common file that cannot be opened on the
    right. *)
Definition fs_locked : filesystem :=
  list_to_map
    [("L", directory ["g"]);
     ("L/g", zero_file 3 1);
     ("R", directory ["g"]);
     ("R/g", regular_file 3 1 None)]%string.

(** The entries named [x] of the two directories of [self] are both regular
    files, or both directories. *)
Definition both_regular (join : string → string → string) (fs : filesystem)
    (self : dircmp) (x : string) : Prop :=
  ∃ n1 n2, fs !! join (left self) x = Some n1 ∧ fs !! join (right self) x = Some n2 ∧
           regular n1 ∧ regular n2.

Definition both_directories (join : string → string → string) (fs : filesystem)
    (self : dircmp) (x : string) : Prop :=
  ∃ n1 n2, fs !! join (left self) x = Some n1 ∧ fs !! join (right self) x = Some n2 ∧
           S_IFMT (st_mode (n_stat n1)) = S_IFDIR ∧
           S_IFMT (st_mode (n_stat n2)) = S_IFDIR.

(** Each of three buckets keeps names of [l] in the order of [l]. *)
Definition bucket_sublists (r : buckets) (l : list string) : Prop :=
  r.1.1 `sublist_of` l ∧ r.1.2 `sublist_of` l ∧ r.2 `sublist_of` l.

(** A list of names is in ascending order, so that sorting it changes
    nothing. *)
Definition in_order (l : list string) : Prop :=
  Sorted str_le l ∧ list_sort l = l.

Definition buckets_in_order (r : buckets) : Prop :=
  in_order r.1.1 ∧ in_order r.1.2 ∧ in_order r.2.

(** The sizes of the entries named [x] of two directories pass the test of
    [_is_similar]. *)
Definition similar_entry (join : string → string → string) (fs : filesystem)
    (a b x : string) : bool :=
  match fs !! join a x, fs !! join b x with
  | Some n1, Some n2 => similar_sizes (st_size (n_stat n1)) (st_size (n_stat n2))
  | _, _ => false
  end.

(** A path without an embedded NUL character: [os.stat] and [open] accept
    it, and fail on it with [OSError] only. *)
Definition nul_free (p : string) : Prop :=
  Ascii.zero ∉ String.list_ascii_of_string p.

(** The item written by one [write] of [to_file]: the string between a
    leading tab and a final character. *)
Fixpoint drop_last (s : string) : string :=
  match s with
  | EmptyString => EmptyString
  | String c EmptyString => EmptyString
  | String c s' => String c (drop_last s')
  end.

Definition item_of (s : string) : option string :=
  match s with
  | String c s' => if decide (c = Ascii.ascii_of_nat 9) then Some (drop_last s') else None
  | EmptyString => None
  end.

(** The names listed in a report: the items of the writes that follow the
    two opening ones. *)
Definition report_items (out : list string) : list string :=
  omap item_of (drop 2 out).

(** The number of stat-able paths longer than the left path of [self]: a
    bound on the depth of the common subdirectories below it. *)
Definition depth_bound (fs : filesystem) (self : dircmp) : nat :=
  size (filter (λ kv, String.length (left self) < String.length kv.1)%nat fs).

(** The outcome of a method that corresponds to a result of the functions
    above. *)
Definition outcome_of {A B} (f : A → B) (r : result A) : outcome B :=
  match r with
  | Ok a => Return (f a)
  | Raise e => Raised (Error e)
  end.

(** The names of [methodmap] whose values are lists. *)
Definition list_attributes : list string :=
  ["left_list"; "right_list"; "common"; "left_only"; "right_only";
   "common_dirs"; "common_files"; "common_funny";
   "same_files"; "diff_files"; "funny_files"]%string.

(** [o'] is [o] except for the attributes [attrs]. *)
Definition same_but (o o' : object) (attrs : list string) : Prop :=
  args o' = args o ∧ ∀ a, a ∉ attrs → stored o' a = stored o a.

(** The names of [methodmap], grouped by the phase that computes them. *)
Definition phase_groups : list (list string) :=
  [["left_list"; "right_list"];
   ["common"; "left_only"; "right_only"];
   ["common_dirs"; "common_files"; "common_funny"];
   ["same_files"; "diff_files"; "funny_files"];
   ["subdirs"]]%string.

(** What the functions of the directory comparison give for each name of
    [methodmap]: the outcome and the process state after it. *)
Definition attribute_table (normcase : string → string)
    (join : string → string → string) (fs : filesystem) (self : dircmp) (w : world)
    : list (string * (outcome value * world)) :=
  let listings := phase0 fs self in
  let names := attr_names normcase fs self in
  let kinds := attr_kinds normcase join fs self in
  let files := attr_files normcase join fs self w in
  [("left_list", (outcome_of (λ r, VList r.1) listings, w));
   ("right_list", (outcome_of (λ r, VList r.2) listings, w));
   ("common", (outcome_of (λ r : buckets, VList r.1.1) names, w));
   ("left_only", (outcome_of (λ r : buckets, VList r.1.2) names, w));
   ("right_only", (outcome_of (λ r : buckets, VList r.2) names, w));
   ("common_dirs", (outcome_of (λ r : buckets, VList r.1.1) kinds, w));
   ("common_files", (outcome_of (λ r : buckets, VList r.1.2) kinds, w));
   ("common_funny", (outcome_of (λ r : buckets, VList r.2) kinds, w));
   ("same_files", (outcome_of (λ r : buckets, VList r.1.1) files.1, files.2));
   ("diff_files", (outcome_of (λ r : buckets, VList r.1.2) files.1, files.2));
   ("funny_files", (outcome_of (λ r : buckets, VList r.2) files.1, files.2));
   ("subdirs",
    (outcome_of (λ r : buckets, VSubdirs (phase4 join self r.1.1)) kinds, w))]%string.

(** A phase sets the attributes [g] when it returns, and raises nothing
    but the exceptions of the comparison. *)
Definition sets (phase : Method unit) (g : list string) : Prop :=
  ∀ o w,
    match phase o w with
    | (Return _, o', _) => ∀ a, a ∈ g → is_Some (stored o' a)
    | (Raised e, _, _) => ∃ e', e = Error e'
    end.

(** * Properties *)

(** ** Rounded quotients against the two literals *)

(** A few quotients, as Python prints them with [float.hex]. *)
Example true_div_examples :
  Float.true_div 100 110 = Some (Float.mk 8188362958855447 (-53)) ∧
  Float.true_div 1 3 = Some (Float.mk 6004799503160661 (-54)) ∧
  Float.true_div 100 200 = Some (Float.mk 4503599627370496 (-53)) ∧
  Float.true_div 4 5 = Some Float.lit_0_8 ∧
  Float.true_div 5 4 = Some Float.lit_1_25 ∧
  Float.true_div 4611686018427387905 3 = Some (Float.mk 6004799503160661 8) ∧
  Float.true_div 3200000000000003 4000000000000004
    = Some (Float.mk 7205759403792793 (-53)) ∧
  Float.true_div 4000000000000004 3200000000000003 = Some Float.lit_1_25 ∧
  Float.true_div 7 0 = None.
Proof. repeat split; reflexivity. Qed.

Module FloatFacts.
Import Float.

Lemma num_pos_exp a k : 0 <= k → num a k = a.
Proof. intros. unfold num. rewrite Z.max_l by lia. simpl. lia. Qed.

Lemma num_neg_exp a k : k <= 0 → num a k = a * 2 ^ (- k).
Proof. intros. unfold num. rewrite Z.max_r by lia. reflexivity. Qed.

Lemma den_pos_exp b k : 0 <= k → den b k = b * 2 ^ k.
Proof. intros. unfold den. rewrite Z.max_r by lia. reflexivity. Qed.

Lemma den_neg_exp b k : k <= 0 → den b k = b.
Proof. intros. unfold den. rewrite Z.max_l by lia. simpl. lia. Qed.

Lemma pow2_pos k : 0 <= k → 0 < 2 ^ k.
Proof. intros. apply Z.pow_pos_nonneg; lia. Qed.

Lemma pow2_split j k : 0 <= j → 0 <= k → 2 ^ (j + k) = 2 ^ j * 2 ^ k.
Proof. intros. apply Z.pow_add_r; lia. Qed.

(** [quot_log2 a b] is the binary order of magnitude of [a / b]. *)
Lemma quot_log2_spec a b :
  0 < a → 0 < b →
  den b (quot_log2 a b) <= num a (quot_log2 a b) ∧
  num a (quot_log2 a b + 1) < den b (quot_log2 a b + 1).
Proof.
  intros Ha Hb. unfold quot_log2.
  destruct (Z.log2_spec a Ha) as [Ha1 Ha2].
  destruct (Z.log2_spec b Hb) as [Hb1 Hb2].
  pose proof (Z.log2_nonneg a) as Hla. pose proof (Z.log2_nonneg b) as Hlb.
  set (la := Z.log2 a) in *. set (lb := Z.log2 b) in *.
  rewrite <- Z.add_1_r in Ha2, Hb2.
  rewrite pow2_split in Ha2, Hb2 by lia. change (2 ^ 1) with 2 in *.
  pose proof (pow2_pos la Hla) as HA. pose proof (pow2_pos lb Hlb) as HB.
  destruct (Z_le_gt_dec lb la) as [Hl|Hl].
  - (* l >= 0 *)
    assert (Hsplit : 2 ^ la = 2 ^ lb * 2 ^ (la - lb)).
    { rewrite <- pow2_split by lia. f_equal. lia. }
    pose proof (pow2_pos (la - lb) ltac:(lia)) as HP.
    destruct (Z.ltb_spec (num a (la - lb)) (den b (la - lb))) as [Hc|Hc].
    + replace (la - lb - 1 + 1) with (la - lb) by lia. split; [|exact Hc].
      rewrite num_pos_exp, den_pos_exp in Hc by lia.
      destruct (Z.eq_dec la lb) as [->|Hne].
      * rewrite num_neg_exp, den_neg_exp by lia.
        replace (- (lb - lb - 1)) with 1 by lia. change (2 ^ 1) with 2. lia.
      * rewrite num_pos_exp, den_pos_exp by lia.
        assert (2 ^ (la - lb) = 2 * 2 ^ (la - lb - 1)) as Hq.
        { rewrite <- (Z.pow_succ_r 2) by lia. f_equal. lia. }
        pose proof (pow2_pos (la - lb - 1) ltac:(lia)). nia.
    + split; [exact Hc|].
      rewrite num_pos_exp, den_pos_exp by lia.
      rewrite pow2_split by lia. change (2 ^ 1) with 2. nia.
  - (* l < 0 *)
    assert (Hsplit : 2 ^ lb = 2 ^ la * 2 ^ (lb - la)).
    { rewrite <- pow2_split by lia. f_equal. lia. }
    pose proof (pow2_pos (lb - la) ltac:(lia)) as HP.
    destruct (Z.ltb_spec (num a (la - lb)) (den b (la - lb))) as [Hc|Hc].
    + replace (la - lb - 1 + 1) with (la - lb) by lia. split; [|exact Hc].
      rewrite num_neg_exp, den_neg_exp by lia.
      replace (- (la - lb - 1)) with (lb - la + 1) by lia.
      rewrite pow2_split by lia. change (2 ^ 1) with 2. nia.
    + split; [exact Hc|].
      rewrite num_neg_exp, den_neg_exp in Hc by lia.
      replace (- (la - lb)) with (lb - la) in Hc by lia.
      rewrite num_neg_exp, den_neg_exp by lia.
      replace (- (la - lb + 1)) with (lb - la - 1) by lia.
      assert (2 ^ (lb - la) = 2 * 2 ^ (lb - la - 1)) as Hq.
      { rewrite <- (Z.pow_succ_r 2) by lia. f_equal. lia. }
      pose proof (pow2_pos (lb - la - 1) ltac:(lia)). nia.
Qed.

Lemma round_quot_sandwich a b :
  0 < a → 0 < b →
  let e := quot_log2 a b - 52 in
  0 < den b e ∧ 2 ^ 52 * den b e <= num a e ∧ num a e < 2 ^ 53 * den b e.
Proof.
  intros Ha Hb e. subst e.
  destruct (quot_log2_spec a b Ha Hb) as [Hlo Hhi].
  set (L := quot_log2 a b) in *.
  assert (Hd : 0 < den b (L - 52)).
  { unfold den. pose proof (pow2_pos (Z.max 0 (L - 52)) ltac:(lia)). nia. }
  split; [exact Hd|]. split.
  - destruct (Z_le_gt_dec 52 L) as [H1|H1].
    + rewrite num_pos_exp, den_pos_exp in * by lia.
      replace L with (52 + (L - 52)) in Hlo by lia.
      rewrite pow2_split in Hlo by lia. lia.
    + destruct (Z_le_gt_dec 0 L) as [H2|H2].
      * rewrite num_pos_exp, den_pos_exp in Hlo by lia.
        rewrite num_neg_exp, den_neg_exp by lia.
        assert (2 ^ 52 = 2 ^ L * 2 ^ (- (L - 52))) as ->.
        { rewrite <- pow2_split by lia. f_equal. lia. }
        pose proof (pow2_pos (- (L - 52)) ltac:(lia)).
        pose proof (pow2_pos L ltac:(lia)). nia.
      * rewrite num_neg_exp, den_neg_exp in * by lia.
        replace (- (L - 52)) with (- L + 52) by lia.
        rewrite pow2_split by lia. lia.
  - replace (L - 52) with (L + 1 - 53) by lia.
    set (K := L + 1) in *.
    destruct (Z_le_gt_dec 53 K) as [H1|H1].
    + rewrite num_pos_exp, den_pos_exp in * by lia.
      replace K with (53 + (K - 53)) in Hhi by lia.
      rewrite pow2_split in Hhi by lia. lia.
    + destruct (Z_le_gt_dec 0 K) as [H2|H2].
      * rewrite num_pos_exp, den_pos_exp in Hhi by lia.
        rewrite num_neg_exp, den_neg_exp by lia.
        assert (2 ^ 53 = 2 ^ K * 2 ^ (- (K - 53))) as ->.
        { rewrite <- pow2_split by lia. f_equal. lia. }
        pose proof (pow2_pos (- (K - 53)) ltac:(lia)).
        pose proof (pow2_pos K ltac:(lia)). nia.
      * rewrite num_neg_exp, den_neg_exp in * by lia.
        replace (- (K - 53)) with (- K + 53) by lia.
        rewrite pow2_split by lia. lia.
Qed.

(** Rounding to nearest, ties to even, against an even threshold. *)
Lemma mant_round_quot a b :
  mant (round_quot a b) =
  nearest_even (num a (quot_log2 a b - 52)) (den b (quot_log2 a b - 52)).
Proof. reflexivity. Qed.

Lemma expo_round_quot a b : expo (round_quot a b) = quot_log2 a b - 52.
Proof. reflexivity. Qed.

Lemma nearest_even_ge n d M :
  0 < d → Z.even M = true →
  M <= nearest_even n d ↔ (2 * M - 1) * d <= 2 * n.
Proof.
  intros Hd HM. unfold nearest_even.
  pose proof (Z.div_mod n d ltac:(lia)) as Hn.
  pose proof (Z.mod_pos_bound n d Hd) as Hr.
  set (m := n / d) in *. set (r := n mod d) in *.
  apply Zeven_bool_iff, Zeven_ex_iff in HM as [K ->].
  destruct (Z.ltb_spec (2 * r) d); [nia|].
  destruct (Z.ltb_spec d (2 * r)); [nia|].
  destruct (Z.even m) eqn:Hm.
  - apply Zeven_bool_iff, Zeven_ex_iff in Hm as [k Hk]. nia.
  - nia.
Qed.

Lemma nearest_even_le n d M :
  0 < d → Z.even M = true →
  nearest_even n d <= M ↔ 2 * n <= (2 * M + 1) * d.
Proof.
  intros Hd HM. unfold nearest_even.
  pose proof (Z.div_mod n d ltac:(lia)) as Hn.
  pose proof (Z.mod_pos_bound n d Hd) as Hr.
  set (m := n / d) in *. set (r := n mod d) in *.
  apply Zeven_bool_iff, Zeven_ex_iff in HM as [K ->].
  destruct (Z.ltb_spec (2 * r) d); [nia|].
  destruct (Z.ltb_spec d (2 * r)); [nia|].
  destruct (Z.even m) eqn:Hm.
  - nia.
  - assert (Z.odd m = true) as Ho by (rewrite <- Z.negb_even, Hm; reflexivity).
    apply Zodd_bool_iff, Zodd_ex_iff in Ho as [k Hk]. nia.
Qed.

Lemma nearest_even_bounds n d :
  0 < d → 2 ^ 52 * d <= n → n < 2 ^ 53 * d →
  2 ^ 52 <= nearest_even n d <= 2 ^ 53.
Proof.
  intros Hd Hlo Hhi. split.
  - apply nearest_even_ge; [lia|reflexivity|]. lia.
  - apply nearest_even_le; [lia|reflexivity|]. lia.
Qed.

(** [a / b >= 0.8] holds exactly when the quotient is at least the midpoint
    below the literal. *)
Lemma geb_lit_0_8 a b :
  0 < a → 0 < b →
  geb (round_quot a b) lit_0_8 = true ↔ 14411518807585587 * b <= 2 ^ 54 * a.
Proof.
  intros Ha Hb. unfold geb, leb.
  rewrite expo_round_quot, mant_round_quot. cbn [expo mant lit_0_8].
  destruct (round_quot_sandwich a b Ha Hb) as (Hd & Hlo & Hhi).
  destruct (quot_log2_spec a b Ha Hb) as [Hl1 Hl2].
  pose proof (nearest_even_bounds _ _ Hd Hlo Hhi) as Hm.
  set (L := quot_log2 a b) in *.
  set (m' := nearest_even _ _) in *.
  destruct (Z.leb_spec (-53) (L - 52)) as [H1|H1].
  - rewrite Z.leb_le.
    destruct (Z.eq_dec L (-1)) as [HL|HL].
    + subst m'. rewrite HL in *. change (2 ^ (-1 - 52 - -53)) with 1.
      rewrite Z.mul_1_r.
      rewrite nearest_even_ge by (try reflexivity; lia).
      change (num a (-1 - 52)) with (a * 2 ^ 53).
      change (den b (-1 - 52)) with (b * 1). lia.
    + assert (0 <= L) by lia.
      rewrite num_pos_exp, den_pos_exp in Hl1 by lia.
      pose proof (pow2_pos L ltac:(lia)).
      replace (L - 52 - -53) with (L + 1) by lia.
      rewrite pow2_split by lia. change (2 ^ 1) with 2.
      split; intros _; nia.
  - rewrite Z.leb_le.
    rewrite num_neg_exp, den_neg_exp in Hl2 by lia.
    replace (-53 - (L - 52)) with (- (L + 1)) by lia.
    assert (2 ^ (- (L + 1)) = 2 * 2 ^ (- (L + 1) - 1)) as Hq.
    { rewrite <- (Z.pow_succ_r 2) by lia. f_equal. lia. }
    pose proof (pow2_pos (- (L + 1) - 1) ltac:(lia)).
    split; intros; exfalso; nia.
Qed.

(** [a / b <= 1.25] holds exactly when the quotient is at most the midpoint
    above the literal. *)
Lemma leb_lit_1_25 a b :
  0 < a → 0 < b →
  leb (round_quot a b) lit_1_25 = true ↔ 2 ^ 53 * a <= 11258999068426241 * b.
Proof.
  intros Ha Hb. unfold leb.
  rewrite expo_round_quot, mant_round_quot. cbn [expo mant lit_1_25].
  destruct (round_quot_sandwich a b Ha Hb) as (Hd & Hlo & Hhi).
  destruct (quot_log2_spec a b Ha Hb) as [Hl1 Hl2].
  pose proof (nearest_even_bounds _ _ Hd Hlo Hhi) as Hm.
  set (L := quot_log2 a b) in *.
  set (m' := nearest_even _ _) in *.
  destruct (Z.leb_spec (L - 52) (-52)) as [H1|H1].
  - rewrite Z.leb_le.
    destruct (Z.eq_dec L 0) as [HL|HL].
    + subst m'. rewrite HL in *. change (2 ^ (-52 - (0 - 52))) with 1.
      rewrite Z.mul_1_r.
      rewrite nearest_even_le by (try reflexivity; lia).
      change (num a (0 - 52)) with (a * 2 ^ 52).
      change (den b (0 - 52)) with (b * 1). lia.
    + assert (L + 1 <= 0) by lia.
      rewrite num_neg_exp, den_neg_exp in Hl2 by lia.
      pose proof (pow2_pos (- (L + 1)) ltac:(lia)).
      replace (-52 - (L - 52)) with (- (L + 1) + 1) by lia.
      rewrite pow2_split by lia. change (2 ^ 1) with 2.
      split; intros _; nia.
  - rewrite Z.leb_le.
    rewrite num_pos_exp, den_pos_exp in Hl1 by lia.
    replace (L - 52 - -52) with L by lia.
    assert (2 ^ L = 2 * 2 ^ (L - 1)) as Hq.
    { rewrite <- (Z.pow_succ_r 2) by lia. f_equal. lia. }
    pose proof (pow2_pos (L - 1) ltac:(lia)).
    split; intros; exfalso; nia.
Qed.
End FloatFacts.

(** ** The size-similarity test *)

Lemma true_div_pos a b :
  0 < a → 0 < b → Float.true_div a b = Some (Float.round_quot a b).
Proof.
  intros Ha Hb. unfold Float.true_div.
  destruct (Z.eqb_spec b 0); [lia|]. destruct (Z.eqb_spec a 0); [lia|].
  rewrite !Z.abs_eq by lia. rewrite !Z.sgn_pos by lia.
  destruct (Float.round_quot a b) as [m e]. simpl. do 2 f_equal.
  destruct m; reflexivity.
Qed.

Lemma true_div_is_None a b : Float.true_div a b = None ↔ b = 0.
Proof.
  unfold Float.true_div. destruct (Z.eqb_spec b 0); [tauto|].
  destruct (a =? 0); split; (discriminate || contradiction).
Qed.

Lemma _is_similar_pos s1 s2 w :
  0 <= s1 → 0 < s2 → _is_similar s1 s2 w = (Ok (similar_sizes s1 s2), w).
Proof.
  intros H1 H2. unfold _is_similar, similar_sizes.
  destruct (Z.eq_dec s1 0) as [->|Hne].
  - unfold Float.true_div. destruct (Z.eqb_spec s2 0); [lia|]. simpl (0 =? 0).
    cbv iota. unfold ret. do 2 f_equal.
    destruct (Z.leb_spec (14411518807585587 * s2) (2 ^ 54 * 0)); [lia|reflexivity].
  - rewrite true_div_pos by lia. unfold ret. do 2 f_equal.
    pose proof (FloatFacts.geb_lit_0_8 s1 s2 ltac:(lia) H2) as Hg.
    pose proof (FloatFacts.leb_lit_1_25 s1 s2 ltac:(lia) H2) as Hl.
    destruct (Float.geb _ _), (Float.leb _ _);
      destruct (Z.leb_spec (14411518807585587 * s2) (2 ^ 54 * s1));
      destruct (Z.leb_spec (2 ^ 53 * s1) (11258999068426241 * s2));
      simpl; try reflexivity; exfalso; intuition (try lia; try discriminate).
Qed.

Lemma _is_similar_zero s1 w :
  _is_similar s1 0 w = (Raise ZeroDivisionError, w).
Proof. reflexivity. Qed.

(** A size always resembles itself, when the quotient exists. *)
Lemma _is_similar_self s w :
  s ≠ 0 → _is_similar s s w = (Ok true, w).
Proof.
  intros Hs. unfold _is_similar, Float.true_div.
  destruct (Z.eqb_spec s 0); [contradiction|].
  pose proof (FloatFacts.geb_lit_0_8 (Z.abs s) (Z.abs s) ltac:(lia) ltac:(lia)) as Hg.
  pose proof (FloatFacts.leb_lit_1_25 (Z.abs s) (Z.abs s) ltac:(lia) ltac:(lia)) as Hl.
  replace (Z.sgn s * Z.sgn s) with 1 by (destruct s; simpl; lia).
  destruct (Float.round_quot (Z.abs s) (Z.abs s)) as [m e] eqn:Hq.
  cbn [Float.mant Float.expo]. replace (1 * m) with m by lia.
  apply proj2 in Hg. apply proj2 in Hl.
  rewrite Hg, Hl by lia. reflexivity.
Qed.

(** Sizes whose exact ratio lies in [[0.8, 1.25]] pass the test. *)
Lemma similar_sizes_in_interval s1 s2 :
  0 < s2 → 4 * s2 <= 5 * s1 → 4 * s1 <= 5 * s2 → similar_sizes s1 s2 = true.
Proof.
  intros. unfold similar_sizes. apply andb_true_iff.
  split; apply Z.leb_le; lia.
Qed.

(** Below [2 ^ 51] bytes the test is exact. *)
Lemma similar_sizes_small s1 s2 :
  0 <= s1 < 2 ^ 51 → 0 < s2 < 2 ^ 51 →
  similar_sizes s1 s2 = true ↔ 4 * s2 <= 5 * s1 ∧ 4 * s1 <= 5 * s2.
Proof.
  intros H1 H2. unfold similar_sizes.
  rewrite andb_true_iff, !Z.leb_le. lia.
Qed.

(** ** Running [cmp] *)

Lemma BUFSIZE_pos : (0 < BUFSIZE)%nat.
Proof. unfold BUFSIZE. lia. Qed.

(** The chunk size is only ever unfolded by evaluation. *)
#[local] Opaque BUFSIZE.

Lemma cmp_stat_fails fs f1 f2 sh w :
  fs !! f1 = None ∨ fs !! f2 = None → cmp fs f1 f2 sh w = (Raise OSError, w).
Proof.
  intros H. unfold cmp, bind, lift, os_stat.
  destruct (fs !! f1) as [n1|]; [|reflexivity].
  destruct H as [H|H]; [discriminate|]. rewrite H. reflexivity.
Qed.

Lemma cmp_not_regular_eq fs f1 f2 n1 n2 sh w :
  fs !! f1 = Some n1 → fs !! f2 = Some n2 →
  ¬ regular n1 ∨ ¬ regular n2 →
  cmp fs f1 f2 sh w = (Ok false, w).
Proof.
  intros H1 H2 Hn. unfold cmp, bind, lift, os_stat, regular in *.
  rewrite H1, H2. cbn [_sig fst snd].
  destruct (Z.eqb_spec (S_IFMT (st_mode (n_stat n1))) S_IFREG);
    destruct (Z.eqb_spec (S_IFMT (st_mode (n_stat n2))) S_IFREG);
    try reflexivity.
  tauto.
Qed.

Lemma cmp_shallow_eq fs f1 f2 n1 n2 w :
  fs !! f1 = Some n1 → fs !! f2 = Some n2 → regular n1 → regular n2 →
  cmp fs f1 f2 true w =
    if st_size (n_stat n2) =? 0 then (Raise ZeroDivisionError, w)
    else match _is_similar (st_size (n_stat n1)) (st_size (n_stat n2)) w with
         | (Ok true, _) => (Ok true, w)
         | _ => (Ok false, w)
         end.
Proof.
  intros H1 H2 R1 R2. unfold cmp, bind, lift, os_stat, regular in *.
  rewrite H1, H2. cbn [_sig fst snd]. rewrite R1, R2. cbn [negb orb Z.eqb S_IFREG Pos.eqb].
  destruct (Z.eqb_spec (st_size (n_stat n2)) 0) as [Hz|Hz].
  - rewrite Hz. reflexivity.
  - unfold _is_similar.
    destruct (Float.true_div _ _) as [q|] eqn:Hq.
    + unfold ret at 1.
      destruct (Float.geb q Float.lit_0_8 && Float.leb q Float.lit_1_25) eqn:Hs;
        [reflexivity|].
      destruct (Z.eqb_spec (st_size (n_stat n1)) (st_size (n_stat n2))) as [He|He];
        [|reflexivity].
      exfalso. pose proof (_is_similar_self (st_size (n_stat n2)) w Hz) as Hself.
      unfold _is_similar in Hself. rewrite He in Hq. rewrite Hq in Hself.
      unfold ret in Hself. congruence.
    + apply true_div_is_None in Hq. contradiction.
Qed.

Lemma cmp_deep_eq fs f1 f2 n1 n2 w :
  fs !! f1 = Some n1 → fs !! f2 = Some n2 → regular n1 → regular n2 →
  cmp fs f1 f2 false w =
    if negb (st_size (n_stat n1) =? st_size (n_stat n2)) then (Ok false, w)
    else match cache w !! key_of f1 f2 n1 n2 with
         | Some o => (Ok o, w)
         | None =>
             match n_data n1, n_data n2 with
             | None, _ => (Raise OSError, w)
             | Some _, None =>
                 (Raise OSError, {| cache := cache w; trace := trace w ++ [EvOpen f1] |})
             | Some c1, Some c2 =>
                 (Ok (read_loop f1 f2 BUFSIZE c1 c2).1,
                  {| cache := <[key_of f1 f2 n1 n2 := (read_loop f1 f2 BUFSIZE c1 c2).1]>
                                (if (100 <? size (cache w))%nat then ∅ else cache w);
                     trace := ((trace w ++ [EvOpen f1]) ++ [EvOpen f2])
                              ++ (read_loop f1 f2 BUFSIZE c1 c2).2 |})
             end
         end.
Proof.
  intros H1 H2 R1 R2. unfold cmp, bind, lift, os_stat, regular, key_of in *.
  rewrite H1, H2. cbn [_sig fst snd]. rewrite R1, R2.
  cbn [negb orb Z.eqb S_IFREG Pos.eqb]. unfold ret at 1.
  cbv iota.
  destruct (st_size (n_stat n1) =? st_size (n_stat n2)); [|reflexivity].
  cbn [negb]. unfold cache_get. 
  destruct (cache w !! _) as [o|]; [reflexivity|].
  unfold _do_cmp, bind, open_rb. rewrite H1, H2. cbn [mbind option_bind].
  destruct (n_data n1) as [c1|]; [|reflexivity].
  cbn [cache trace].
  destruct (n_data n2) as [c2|]; [|reflexivity].
  unfold log, ret, cache_len, cache_set, clear_cache. cbn [cache trace].
  destruct (100 <? size (cache w))%nat; reflexivity.
Qed.

(** The chunked loop decides equality of the two streams. *)
Lemma read_loop_correct f1 f2 bufsize fp1 fp2 :
  (0 < bufsize)%nat →
  (read_loop f1 f2 bufsize fp1 fp2).1 = bool_decide (fp1 = fp2).
Proof.
  funelim (read_loop f1 f2 bufsize fp1 fp2); intros Hpos; cbn [fst].
  - apply bool_decide_eq_true in Heq.
    symmetry. apply bool_decide_eq_false. intros ->. by apply Heq.
  - apply bool_decide_eq_false, dec_stable in Heq.
    symmetry. apply bool_decide_eq_true.
    destruct bufsize as [|k]; [lia|].
    destruct fp1; [|discriminate]. destruct fp2; [reflexivity|discriminate].
  - apply bool_decide_eq_false, dec_stable in Heq.
    match goal with IH : _ → (read_loop _ _ _ _ _).1 = _ |- _ => rewrite IH by done end.
    apply bool_decide_ext. split.
    + intros Hd. rewrite <- (take_drop bufsize fp1), <- (take_drop bufsize fp2).
      congruence.
    + intros ->. reflexivity.
Qed.


(** ** The cache stays coherent *)

Lemma coherent_empty fs : coherent fs ∅.
Proof. intros f1 f2 n1 n2 v _ _ H. rewrite lookup_empty in H. discriminate. Qed.

Lemma coherent_insert fs c f1 f2 n1 n2 c1 c2 :
  fs !! f1 = Some n1 → fs !! f2 = Some n2 →
  n_data n1 = Some c1 → n_data n2 = Some c2 →
  coherent fs c →
  coherent fs (<[key_of f1 f2 n1 n2 := bool_decide (c1 = c2)]> c).
Proof.
  intros H1 H2 D1 D2 Hc g1 g2 m1 m2 v G1 G2 Hv.
  destruct (decide (key_of f1 f2 n1 n2 = key_of g1 g2 m1 m2)) as [He|Hne].
  - rewrite He, lookup_insert_eq in Hv.
    unfold key_of in He. injection He as -> -> _ _.
    rewrite H1 in G1. rewrite H2 in G2.
    injection G1 as <-. injection G2 as <-.
    exists c1, c2. repeat split; congruence.
  - rewrite lookup_insert_ne in Hv by done. eauto.
Qed.

Lemma regular_dec n : {regular n} + {¬ regular n}.
Proof. apply Z.eq_dec. Qed.

Lemma cmp_shallow_world fs f1 f2 w : (cmp fs f1 f2 true w).2 = w.
Proof.
  destruct (fs !! f1) as [n1|] eqn:H1; [|by rewrite cmp_stat_fails by auto].
  destruct (fs !! f2) as [n2|] eqn:H2; [|by rewrite cmp_stat_fails by auto].
  destruct (regular_dec n1) as [R1|R1];
    [|by rewrite (cmp_not_regular_eq _ _ _ n1 n2) by auto].
  destruct (regular_dec n2) as [R2|R2];
    [|by rewrite (cmp_not_regular_eq _ _ _ n1 n2) by auto].
  rewrite (cmp_shallow_eq _ _ _ n1 n2) by done.
  destruct (_ =? 0); [done|].
  destruct (_is_similar _ _ w) as [[[]|] ?]; done.
Qed.

(** [cmp], in either mode, keeps the cache coherent with the filesystem. *)
Lemma cmp_coherent fs f1 f2 sh w :
  coherent fs (cache w) → coherent fs (cache (cmp fs f1 f2 sh w).2).
Proof.
  intros Hc. destruct sh; [by rewrite cmp_shallow_world|].
  destruct (fs !! f1) as [n1|] eqn:H1; [|by rewrite cmp_stat_fails by auto].
  destruct (fs !! f2) as [n2|] eqn:H2; [|by rewrite cmp_stat_fails by auto].
  destruct (regular_dec n1) as [R1|R1];
    [|by rewrite (cmp_not_regular_eq _ _ _ n1 n2) by auto].
  destruct (regular_dec n2) as [R2|R2];
    [|by rewrite (cmp_not_regular_eq _ _ _ n1 n2) by auto].
  rewrite (cmp_deep_eq _ _ _ n1 n2) by done.
  destruct (negb _); [done|].
  destruct (cache w !! _); [done|].
  destruct (n_data n1) as [c1|] eqn:D1; [|done].
  destruct (n_data n2) as [c2|] eqn:D2; [|done].
  cbn [snd cache]. rewrite read_loop_correct by apply BUFSIZE_pos.
  apply coherent_insert; try done.
  destruct (100 <? _)%nat; [apply coherent_empty|done].
Qed.

Lemma run_cmps_coherent fs pairs w :
  coherent fs (cache w) → coherent fs (cache (run_cmps fs pairs w)).
Proof.
  revert w. induction pairs as [|p pairs IH]; intros w Hc; [done|].
  apply IH. by apply cmp_coherent.
Qed.

(** ** Deep comparison *)



(** The cases of the design document: identical streams of 0, 1 and 8193
    bytes, and 8193 bytes that differ in the last one. *)
Example cmp_deep_chunk_boundary :
  Z.of_nat (S BUFSIZE) = 8193 ∧
  (cmp fs_chunks "e1" "e2" false world0).1 = Ok true ∧
  (cmp fs_chunks "o1" "o2" false world0).1 = Ok true ∧
  (cmp fs_chunks "z1" "z2" false world0).1 = Ok true ∧
  (cmp fs_chunks "z1" "z3" false world0).1 = Ok false.
Proof. repeat split; by vm_compute. Qed.

(** The reads of a comparison of two streams of 8193 zero bytes: one full
    chunk, one byte, and the empty read that ends either stream. *)
Example cmp_deep_chunk_reads :
  trace (cmp fs_chunks "z1" "z2" false world0).2
    = [EvOpen "z1"; EvOpen "z2";
       EvRead "z1" BUFSIZE; EvRead "z2" BUFSIZE;
       EvRead "z1" 1; EvRead "z2" 1;
       EvRead "z1" 0; EvRead "z2" 0]%string.
Proof. by vm_compute. Qed.







Lemma cmp_deep_size_mismatch_eq fs f1 f2 n1 n2 w :
  fs !! f1 = Some n1 → fs !! f2 = Some n2 → regular n1 → regular n2 →
  st_size (n_stat n1) ≠ st_size (n_stat n2) →
  cmp fs f1 f2 false w = (Ok false, w).
Proof.
  intros H1 H2 R1 R2 Hs. rewrite (cmp_deep_eq _ _ _ n1 n2) by done.
  destruct (Z.eqb_spec (st_size (n_stat n1)) (st_size (n_stat n2))); done.
Qed.

(** C2 (as the code has it): in deep mode two regular files whose sizes
    differ compare not-equal with no content read and no cache access; the
    modification time takes no part in the decision: with equal sizes and no
    cached outcome both files are opened and compared by content. *)
Theorem cmp_deep_size_decides fs f1 f2 n1 n2 w :
  fs !! f1 = Some n1 → fs !! f2 = Some n2 → regular n1 → regular n2 →
  (st_size (n_stat n1) ≠ st_size (n_stat n2) →
   cmp fs f1 f2 false w = (Ok false, w)) ∧
  (∀ c1 c2,
     st_size (n_stat n1) = st_size (n_stat n2) →
     cache w !! key_of f1 f2 n1 n2 = None →
     n_data n1 = Some c1 → n_data n2 = Some c2 →
     (cmp fs f1 f2 false w).1 = Ok (bool_decide (c1 = c2)) ∧
     trace (cmp fs f1 f2 false w).2 =
       trace w ++ [EvOpen f1; EvOpen f2] ++ (read_loop f1 f2 BUFSIZE c1 c2).2).
Proof.
  intros H1 H2 R1 R2. split.
  - by apply cmp_deep_size_mismatch_eq.
  - intros c1 c2 Hs Hk D1 D2. rewrite (cmp_deep_eq _ _ _ n1 n2) by done.
    rewrite Hs, Z.eqb_refl, Hk, D1, D2. cbn [negb fst snd trace].
    rewrite read_loop_correct by apply BUFSIZE_pos.
    split; [reflexivity|]. rewrite <- !app_assoc. cbn [app]. reflexivity.
Qed.

Lemma cmp_deep_size_decides_witness :
  cmp fs_small "a" "empty" false world0 = (Ok false, world0).
Proof.
  refine (proj1 (cmp_deep_size_decides fs_small "a" "empty"
            (regular_file 3 1 (Some [Byte.x61; Byte.x62; Byte.x63]))
            (regular_file 0 2 (Some [])) world0 _ _ _ _) _);
    try reflexivity.
  vm_compute. discriminate.
Defined.

(** C2, counterexample: two regular files of equal size whose signatures
    differ in the modification time; the deep comparison opens both and
    answers [True]. *)
Lemma cmp_deep_mtime_counterexample :
  ∃ na nb,
    fs_small !! "a"%string = Some na ∧ fs_small !! "b"%string = Some nb ∧
    regular na ∧ regular nb ∧
    _sig (n_stat na) ≠ _sig (n_stat nb) ∧
    (cmp fs_small "a" "b" false world0).1 = Ok true ∧
    trace (cmp fs_small "a" "b" false world0).2
      = [EvOpen "a"; EvOpen "b"; EvRead "a" 3; EvRead "b" 3;
         EvRead "a" 0; EvRead "b" 0]%string.
Proof.
  eexists _, _. repeat split; try reflexivity.
  vm_compute. discriminate.
Qed.

(** ** Shallow comparison *)

Lemma cmp_shallow_sizes fs f1 f2 n1 n2 w :
  fs !! f1 = Some n1 → fs !! f2 = Some n2 → regular n1 → regular n2 →
  0 <= st_size (n_stat n1) → 0 < st_size (n_stat n2) →
  cmp fs f1 f2 true w =
    (Ok (similar_sizes (st_size (n_stat n1)) (st_size (n_stat n2))), w).
Proof.
  intros H1 H2 R1 R2 S1 S2. rewrite (cmp_shallow_eq _ _ _ n1 n2) by done.
  destruct (Z.eqb_spec (st_size (n_stat n2)) 0); [lia|].
  rewrite _is_similar_pos by done. by destruct (similar_sizes _ _).
Qed.

(** C4 (as the code has it): in shallow mode two regular files whose size
    ratio lies in [[0.8, 1.25]] are reported equal, whatever they contain
    and with no content read; when both sizes are below [2 ^ 51] bytes and
    the ratio lies outside the interval they are reported not-equal, again
    with no content read. *)
Theorem cmp_shallow_size_ratio fs f1 f2 n1 n2 w :
  fs !! f1 = Some n1 → fs !! f2 = Some n2 → regular n1 → regular n2 →
  0 <= st_size (n_stat n1) → 0 < st_size (n_stat n2) →
  (4 * st_size (n_stat n2) <= 5 * st_size (n_stat n1) ∧
   4 * st_size (n_stat n1) <= 5 * st_size (n_stat n2) →
   cmp fs f1 f2 true w = (Ok true, w)) ∧
  (st_size (n_stat n1) < 2 ^ 51 → st_size (n_stat n2) < 2 ^ 51 →
   ¬ (4 * st_size (n_stat n2) <= 5 * st_size (n_stat n1) ∧
      4 * st_size (n_stat n1) <= 5 * st_size (n_stat n2)) →
   cmp fs f1 f2 true w = (Ok false, w)).
Proof.
  intros H1 H2 R1 R2 S1 S2.
  rewrite (cmp_shallow_sizes _ _ _ n1 n2) by done. split.
  - intros [Ha Hb]. by rewrite similar_sizes_in_interval.
  - intros B1 B2 Hout.
    destruct (similar_sizes _ _) eqn:Hs; [|done].
    apply similar_sizes_small in Hs; [tauto|lia|lia].
Qed.

Lemma cmp_shallow_size_ratio_witness :
  cmp fs_sizes "f100" "f110" true world0 = (Ok true, world0) ∧
  cmp fs_sizes "f100" "f200" true world0 = (Ok false, world0).
Proof.
  split.
  - refine (proj1 (cmp_shallow_size_ratio fs_sizes "f100" "f110"
              (zero_file 100 1) (zero_file 110 1) world0 _ _ _ _ _ _) _);
      try reflexivity; try (vm_compute; intuition discriminate).
  - refine (proj2 (cmp_shallow_size_ratio fs_sizes "f100" "f200"
              (zero_file 100 1) (zero_file 200 1) world0 _ _ _ _ _ _) _ _ _);
      try reflexivity; try (vm_compute; intuition discriminate).
Defined.

(** C4, counterexample: sizes 4000000000000004 and 3200000000000003 have a
    ratio above [1.25], yet the quotient rounds to [1.25] and the shallow
    comparison answers [True]. *)
Lemma cmp_shallow_ratio_counterexample :
  ∃ nq np,
    fs_huge !! "q"%string = Some nq ∧ fs_huge !! "p"%string = Some np ∧
    regular nq ∧ regular np ∧
    5 * st_size (n_stat np) < 4 * st_size (n_stat nq) ∧
    cmp fs_huge "q" "p" true world0 = (Ok true, world0).
Proof.
  eexists _, _. repeat split; try reflexivity.
Qed.

(** C10 (as the code has it): shallow-mode equality is symmetric for
    regular files with positive sizes below [2 ^ 51] bytes. *)
Theorem cmp_shallow_symmetric fs a b na nb w :
  fs !! a = Some na → fs !! b = Some nb → regular na → regular nb →
  0 < st_size (n_stat na) < 2 ^ 51 → 0 < st_size (n_stat nb) < 2 ^ 51 →
  cmp fs a b true w = cmp fs b a true w.
Proof.
  intros Ha Hb Ra Rb Sa Sb.
  rewrite (cmp_shallow_sizes _ a b na nb), (cmp_shallow_sizes _ b a nb na) by (done || lia).
  do 2 f_equal.
  pose proof (similar_sizes_small (st_size (n_stat na)) (st_size (n_stat nb))
                ltac:(lia) ltac:(lia)) as H1.
  pose proof (similar_sizes_small (st_size (n_stat nb)) (st_size (n_stat na))
                ltac:(lia) ltac:(lia)) as H2.
  destruct (similar_sizes (st_size (n_stat na)) (st_size (n_stat nb)));
    destruct (similar_sizes (st_size (n_stat nb)) (st_size (n_stat na)));
    try reflexivity; exfalso.
  - assert (true = true) as E by reflexivity. apply H1 in E.
    assert (¬ (false = true)) as N by discriminate. apply N, H2. tauto.
  - assert (true = true) as E by reflexivity. apply H2 in E.
    assert (¬ (false = true)) as N by discriminate. apply N, H1. tauto.
Qed.

Lemma cmp_shallow_symmetric_witness :
  cmp fs_sizes "f100" "f110" true world0 = cmp fs_sizes "f110" "f100" true world0.
Proof.
  apply (cmp_shallow_symmetric fs_sizes "f100" "f110"
           (zero_file 100 1) (zero_file 110 1));
    try reflexivity; vm_compute; intuition discriminate.
Defined.

(** C10, counterexample: with sizes 3200000000000003 and 4000000000000004
    the first quotient rounds below [0.8] and the second rounds to [1.25]:
    the two orders of comparison disagree. *)
Lemma cmp_shallow_asymmetric_counterexample :
  ∃ np nq,
    fs_huge !! "p"%string = Some np ∧ fs_huge !! "q"%string = Some nq ∧
    regular np ∧ regular nq ∧
    0 < st_size (n_stat np) ∧ 0 < st_size (n_stat nq) ∧
    cmp fs_huge "p" "q" true world0 = (Ok false, world0) ∧
    cmp fs_huge "q" "p" true world0 = (Ok true, world0).
Proof.
  eexists _, _. repeat split; try reflexivity.
Qed.

(** ** The size of the cache *)

(** What one call of [cmp] does to the cache: nothing, or one insertion of a
    new key, preceded by a full flush when more than 100 entries are held. *)
Lemma cmp_cache_step fs f1 f2 shallow w :
  cache (cmp fs f1 f2 shallow w).2 = cache w ∨
  ∃ k v, cache w !! k = None ∧
         cache (cmp fs f1 f2 shallow w).2 =
           <[k := v]> (if (100 <? size (cache w))%nat then ∅ else cache w).
Proof.
  destruct shallow; [left; by rewrite cmp_shallow_world|].
  destruct (fs !! f1) as [n1|] eqn:H1; [|left; by rewrite cmp_stat_fails by auto].
  destruct (fs !! f2) as [n2|] eqn:H2; [|left; by rewrite cmp_stat_fails by auto].
  destruct (regular_dec n1) as [R1|R1];
    [|left; by rewrite (cmp_not_regular_eq _ _ _ n1 n2) by auto].
  destruct (regular_dec n2) as [R2|R2];
    [|left; by rewrite (cmp_not_regular_eq _ _ _ n1 n2) by auto].
  rewrite (cmp_deep_eq _ _ _ n1 n2) by done.
  destruct (negb _); [by left|].
  destruct (cache w !! _) eqn:Hk; [by left|].
  destruct (n_data n1) as [c1|]; [|by left].
  destruct (n_data n2) as [c2|]; [|by left].
  right. eexists _, _. split; [exact Hk|]. reflexivity.
Qed.

Lemma size_flush_insert (c : gmap cache_key bool) k v :
  c !! k = None →
  size (<[k := v]> (if (100 <? size c)%nat then ∅ else c)) =
    if (100 <? size c)%nat then 1%nat else S (size c).
Proof.
  intros Hk. destruct (100 <? size c)%nat.
  - by rewrite insert_empty, map_size_singleton.
  - by rewrite map_size_insert_None.
Qed.

(** C1 (as the code has it): the cache never holds more than 101 entries.
    A call of [cmp] leaves it alone or inserts one new key; the insertion
    keeps all entries while at most 100 are held and otherwise flushes the
    whole cache first (no per-entry eviction).  From a fresh process the
    101st distinct result is stored next to the first 100, and the 102nd
    leaves a single entry. *)
Theorem cache_bounded_by_full_flush fs f1 f2 shallow w :
  (size (cache w) ≤ 101)%nat →
  (size (cache (cmp fs f1 f2 shallow w).2) ≤ 101)%nat ∧
  (cache (cmp fs f1 f2 shallow w).2 = cache w ∨
   ∃ k v, cache w !! k = None ∧
          ((size (cache w) ≤ 100)%nat ∧
             cache (cmp fs f1 f2 shallow w).2 = <[k := v]> (cache w) ∨
           (size (cache w) = 101)%nat ∧
             cache (cmp fs f1 f2 shallow w).2 = {[k := v]})) ∧
  size (cache (run_cmps fs_many (take 101 many_pairs) world0)) = 101%nat ∧
  size (cache (run_cmps fs_many (take 102 many_pairs) world0)) = 1%nat.
Proof.
  intros Hb. split; [|split; [|by vm_compute]].
  - destruct (cmp_cache_step fs f1 f2 shallow w) as [->|(k & v & Hk & ->)]; [done|].
    rewrite size_flush_insert by done.
    destruct (Nat.ltb_spec 100 (size (cache w))); lia.
  - destruct (cmp_cache_step fs f1 f2 shallow w) as [->|(k & v & Hk & ->)]; [by left|].
    right. exists k, v. split; [done|].
    destruct (Nat.ltb_spec 100 (size (cache w))).
    + right. split; [lia|]. by rewrite insert_empty.
    + left. split; [lia|done].
Qed.

Lemma cache_bounded_by_full_flush_witness :
  (size (cache (cmp fs_many "f09" "f02" false
                  (run_cmps fs_many (take 101 many_pairs) world0)).2) ≤ 101)%nat.
Proof.
  refine (proj1 (cache_bounded_by_full_flush fs_many "f09" "f02" false
                   (run_cmps fs_many (take 101 many_pairs) world0) _)).
  vm_compute. repeat constructor.
Defined.

(** C1, counterexample: after 101 distinct comparison results the cache
    holds 101 entries, one more than before the 101st insertion. *)
Lemma cache_101_counterexample :
  length (take 101 many_pairs) = 101%nat ∧
  NoDup (take 101 many_pairs) ∧
  size (cache (run_cmps fs_many (take 100 many_pairs) world0)) = 100%nat ∧
  size (cache (run_cmps fs_many (take 101 many_pairs) world0)) = 101%nat ∧
  ¬ (size (cache (run_cmps fs_many (take 101 many_pairs) world0))
     < size (cache (run_cmps fs_many (take 100 many_pairs) world0)))%nat ∧
  ¬ (size (cache (run_cmps fs_many (take 101 many_pairs) world0)) ≤ 100)%nat.
Proof.
  assert (H100 : size (cache (run_cmps fs_many (take 100 many_pairs) world0)) = 100%nat)
    by by vm_compute.
  assert (H101 : size (cache (run_cmps fs_many (take 101 many_pairs) world0)) = 101%nat)
    by by vm_compute.
  split; [reflexivity|]. split; [apply (bool_decide_unpack _); by vm_compute|].
  rewrite H100, H101. repeat split; lia.
Qed.

(** ** Dictionaries and [phase1] *)

Lemma zip_fmap_self {A B} (f : A → B) (l : list A) :
  zip (f <$> l) l = (λ x, (f x, x)) <$> l.
Proof. induction l as [|x l IH]; [done|]. cbn. by rewrite IH. Qed.

Lemma dict_setitem_fresh d k v :
  k ∉ d.*1 → dict_setitem d k v = d ++ [(k, v)].
Proof.
  induction d as [|[k' v'] d IH]; intros Hk; [done|].
  cbn in *. apply not_elem_of_cons in Hk as [Hne Hk].
  destruct (decide (k' = k)); [congruence|]. by rewrite IH.
Qed.

Lemma dict_of_pairs_acc acc kvs :
  NoDup (acc ++ kvs).*1 →
  foldl (λ d kv, dict_setitem d kv.1 kv.2) acc kvs = acc ++ kvs.
Proof.
  revert acc. induction kvs as [|[k v] kvs IH]; intros acc Hnd.
  - by rewrite app_nil_r.
  - cbn [foldl fst snd]. rewrite dict_setitem_fresh.
    + rewrite IH; rewrite <- app_assoc; done.
    + rewrite fmap_app in Hnd. apply NoDup_app in Hnd as (_ & Hd & _).
      intros Hin. apply (Hd k Hin). cbn. left.
Qed.

(** With distinct keys, building the dictionary keeps the items as given. *)
Lemma dict_of_pairs_NoDup kvs : NoDup kvs.*1 → dict_of_pairs kvs = kvs.
Proof. intros. unfold dict_of_pairs. by rewrite dict_of_pairs_acc. Qed.

Lemma dict_getitem_fmap (f : string → string) l x :
  NoDup (f <$> l) → x ∈ l →
  dict_getitem ((λ x, (f x, x)) <$> l) (f x) = Ok x.
Proof.
  induction l as [|y l IH]; intros Hnd Hin; [by apply elem_of_nil in Hin|].
  cbn in *. apply NoDup_cons in Hnd as [Hy Hnd].
  destruct (decide (f y = f x)) as [He|Hne].
  - apply elem_of_cons in Hin as [->|Hin]; [done|].
    exfalso. apply Hy. rewrite He. by apply list_elem_of_fmap_2.
  - apply elem_of_cons in Hin as [->|Hin]; [done|]. by apply IH.
Qed.

Lemma map_result_getitem (f : string → string) l l' :
  NoDup (f <$> l) → l' ⊆ l →
  map_result (dict_getitem ((λ x, (f x, x)) <$> l)) (f <$> l') = Ok l'.
Proof.
  intros Hnd. induction l' as [|x l' IH]; intros Hsub; [done|].
  cbn. rewrite dict_getitem_fmap by (done || apply Hsub; left).
  rewrite IH; [done|]. intros y Hy. apply Hsub. by right.
Qed.

Lemma filter_fmap_comm {A B} (f : A → B) (P : B → Prop)
    `{∀ y, Decision (P y)} (l : list A) :
  filter P (f <$> l) = f <$> filter (λ x, P (f x)) l.
Proof.
  induction l as [|x l IH]; [done|].
  rewrite fmap_cons, !filter_cons.
  destruct (decide (P (f x))); rewrite ?fmap_cons, IH; done.
Qed.

Section Phase1.
Context (normcase : string → string).

(** The dictionary that [phase1] builds from a listing. *)
Lemma phase1_dict l :
  NoDup (normcase <$> l) →
  dict_of_pairs (zip (normcase <$> l) l) = (λ x, (normcase x, x)) <$> l.
Proof.
  intros Hnd. rewrite zip_fmap_self. apply dict_of_pairs_NoDup.
  rewrite <- list_fmap_compose. exact Hnd.
Qed.

Lemma dict_iter_pairs l :
  dict_iter ((λ x, (normcase x, x)) <$> l) = normcase <$> l.
Proof. unfold dict_iter. by rewrite <- list_fmap_compose. Qed.

Lemma dict_contains_pairs l k :
  dict_contains ((λ x, (normcase x, x)) <$> l) k ↔ k ∈ normcase <$> l.
Proof.
  unfold dict_contains. rewrite bool_decide_spec.
  by rewrite <- list_fmap_compose.
Qed.

(** [phase1] in closed form: it never raises, and selects from either
    listing by membership of the normalised name in the other. *)
Lemma phase1_eq left_list right_list :
  NoDup (normcase <$> left_list) → NoDup (normcase <$> right_list) →
  phase1 normcase left_list right_list =
    Ok (filter (λ x, normcase x ∈ normcase <$> right_list) left_list,
        filter (λ x, normcase x ∉ normcase <$> right_list) left_list,
        filter (λ y, normcase y ∉ normcase <$> left_list) right_list).
Proof.
  intros Hl Hr. unfold phase1.
  rewrite !phase1_dict by done. rewrite !dict_iter_pairs.
  rewrite !filter_fmap_comm.
  rewrite !map_result_getitem by (done || apply sublist_subseteq, sublist_filter).
  do 2 f_equal; [f_equal|]; apply list_filter_iff; intros x;
    by rewrite dict_contains_pairs.
Qed.

Lemma phase1_partition left_list right_list common left_only right_only :
  NoDup (normcase <$> left_list) → NoDup (normcase <$> right_list) →
  phase1 normcase left_list right_list = Ok (common, left_only, right_only) →
  common ++ left_only ≡ₚ left_list ∧
  NoDup (common ++ left_only ++ right_only) ∧
  NoDup (normcase <$> (common ++ left_only ++ right_only)) ∧
  (∀ x, x ∈ common ++ left_only ++ right_only → x ∈ left_list ∨ x ∈ right_list) ∧
  (∀ x, x ∈ left_list ∨ x ∈ right_list →
        normcase x ∈ normcase <$> (common ++ left_only ++ right_only)) ∧
  ((∀ x y, x ∈ left_list → y ∈ right_list → normcase x = normcase y → x = y) →
   ∀ x, x ∈ common ++ left_only ++ right_only ↔ x ∈ left_list ∨ x ∈ right_list).
Proof.
  intros Hl Hr. rewrite phase1_eq by done. intros [= Hc Hlo Hro].
  assert (Hperm : common ++ left_only ≡ₚ left_list).
  { rewrite <- Hc, <- Hlo.
    apply (filter_app_complement (λ x, normcase x ∈ normcase <$> right_list)). }
  assert (Hro_sub : right_only `sublist_of` right_list)
    by (rewrite <- Hro; apply sublist_filter).
  assert (Hro_in : ∀ y, y ∈ right_only ↔
            (normcase y ∉ normcase <$> left_list) ∧ (y ∈ right_list))
    by (intros y; rewrite <- Hro;
        apply (list_elem_of_filter (λ y, normcase y ∉ normcase <$> left_list))).
  clear Hc Hlo Hro.
  assert (Hkeys : NoDup (normcase <$> (common ++ left_only) ++ right_only)).
  { rewrite fmap_app. apply NoDup_app. split; [by rewrite Hperm|]. split.
    - intros k Hk Hk'. rewrite Hperm in Hk.
      apply list_elem_of_fmap in Hk' as (y & -> & Hy).
      apply Hro_in in Hy as [Hy _]. exact (Hy Hk).
    - eapply sublist_NoDup; [exact Hr|by apply fmap_sublist]. }
  assert (Hsub : ∀ x, x ∈ (common ++ left_only) ++ right_only →
                      x ∈ left_list ∨ x ∈ right_list).
  { intros x Hx. apply elem_of_app in Hx as [Hx|Hx].
    - left. by rewrite <- Hperm.
    - right. by apply Hro_in in Hx as [_ Hx]. }
  split; [exact Hperm|].
  split; [rewrite app_assoc; by apply NoDup_fmap_1 in Hkeys|].
  split; [by rewrite app_assoc|].
  split; [intros x; rewrite app_assoc; apply Hsub|]. split.
  - intros x Hx. rewrite app_assoc, fmap_app. apply elem_of_app.
    destruct Hx as [Hx|Hx].
    + left. rewrite Hperm. by apply list_elem_of_fmap_2.
    + destruct (decide (normcase x ∈ normcase <$> left_list)) as [Hin|Hout].
      * left. by rewrite Hperm.
      * right. apply list_elem_of_fmap_2. by apply Hro_in.
  - intros Hinj x. rewrite app_assoc. split; [apply Hsub|].
    intros [Hx|Hx]; apply elem_of_app.
    + left. by rewrite Hperm.
    + destruct (decide (normcase x ∈ normcase <$> left_list)) as [Hin|Hout].
      * left. rewrite Hperm.
        apply list_elem_of_fmap in Hin as (y & Hxy & Hy).
        by rewrite <- (Hinj y x Hy Hx (eq_sym Hxy)).
      * right. by apply Hro_in.
Qed.
End Phase1.

(** ** [_cmp] and [cmpfiles] *)

Lemma bucket_app_nil_l p : bucket_app ([], [], []) p = p.
Proof. by destruct p as [[??]?]. Qed.

Lemma bucket_app_nil_r p : bucket_app p ([], [], []) = p.
Proof. destruct p as [[??]?]. unfold bucket_app. cbn. by rewrite !app_nil_r. Qed.

Lemma bucket_app_assoc p q r :
  bucket_app (bucket_app p q) r = bucket_app p (bucket_app q r).
Proof. unfold bucket_app. cbn. by rewrite !app_assoc. Qed.

Lemma bucket_all_app p q : bucket_all (bucket_app p q) ≡ₚ bucket_all p ++ bucket_all q.
Proof.
  destruct p as [[p0 p1] p2], q as [[q0 q1] q2]. unfold bucket_all, bucket_app. cbn.
  solve_Permutation.
Qed.

Lemma bucket_append_app res i x :
  bucket_append res i x =
    match bucket_append ([], [], []) i x with
    | Ok r => Ok (bucket_app res r)
    | Raise e => Raise e
    end.
Proof.
  destruct res as [[r0 r1] r2]. unfold bucket_append, bucket_app.
  destruct i as [|[|[|i]]]; cbn; rewrite ?app_nil_r; reflexivity.
Qed.

Lemma _cmp_eq fs a b sh w :
  _cmp fs a b sh w =
    match cmp fs a b sh w with
    | (Ok r, w') => (Ok (if r then 0 else 1)%nat, w')
    | (Raise OSError, w') => (Ok 2%nat, w')
    | (Raise e, w') => (Raise e, w')
    end.
Proof.
  unfold _cmp, try_except, bind, ret.
  destruct (cmp fs a b sh w) as [[[]|[]] w']; reflexivity.
Qed.

(** [cmp] raises nothing but [OSError] and, in shallow mode on two regular
    files the second of which is empty, [ZeroDivisionError]. *)
Lemma cmp_raises fs a b sh w e w' :
  cmp fs a b sh w = (Raise e, w') →
  e = OSError ∨
  (e = ZeroDivisionError ∧ sh = true ∧ w' = w ∧
   ∃ n1 n2, fs !! a = Some n1 ∧ fs !! b = Some n2 ∧
            regular n1 ∧ regular n2 ∧ st_size (n_stat n2) = 0).
Proof.
  destruct (fs !! a) as [n1|] eqn:H1;
    [|rewrite cmp_stat_fails by auto; intros [= <- _]; by left].
  destruct (fs !! b) as [n2|] eqn:H2;
    [|rewrite cmp_stat_fails by auto; intros [= <- _]; by left].
  destruct (regular_dec n1) as [R1|R1];
    [|by rewrite (cmp_not_regular_eq _ _ _ n1 n2) by auto].
  destruct (regular_dec n2) as [R2|R2];
    [|by rewrite (cmp_not_regular_eq _ _ _ n1 n2) by auto].
  destruct sh.
  - rewrite (cmp_shallow_eq _ _ _ n1 n2) by done.
    destruct (Z.eqb_spec (st_size (n_stat n2)) 0) as [Hz|Hz].
    + intros [= <- <-]. right. repeat split; eauto 10.
    + by destruct (_is_similar _ _ w) as [[[]|] ?].
  - rewrite (cmp_deep_eq _ _ _ n1 n2) by done.
    destruct (negb _); [done|]. destruct (cache w !! _); [done|].
    destruct (n_data n1), (n_data n2); intros [= <- _]; by left.
Qed.

Lemma _cmp_cases fs a b sh w :
  (∃ i w', (i < 3)%nat ∧ _cmp fs a b sh w = (Ok i, w')) ∨
  (_cmp fs a b sh w = (Raise ZeroDivisionError, w) ∧ sh = true ∧
   ∃ n1 n2, fs !! a = Some n1 ∧ fs !! b = Some n2 ∧
            regular n1 ∧ regular n2 ∧ st_size (n_stat n2) = 0).
Proof.
  rewrite _cmp_eq. destruct (cmp fs a b sh w) as [[r|e] w'] eqn:Hc.
  - left. exists (if r then 0 else 1)%nat, w'. split; [destruct r; lia|done].
  - apply cmp_raises in Hc as [->|(-> & -> & -> & Hn)].
    + left. exists 2%nat, w'. split; [lia|done].
    + right. done.
Qed.

Lemma _cmp_stat_fails fs a b sh w :
  fs !! a = None ∨ fs !! b = None → _cmp fs a b sh w = (Ok 2%nat, w).
Proof. intros H. by rewrite _cmp_eq, cmp_stat_fails. Qed.

Lemma _cmp_zero_divisor fs a b n1 n2 w :
  fs !! a = Some n1 → fs !! b = Some n2 → regular n1 → regular n2 →
  st_size (n_stat n2) = 0 →
  _cmp fs a b true w = (Raise ZeroDivisionError, w).
Proof.
  intros H1 H2 R1 R2 Hz.
  rewrite _cmp_eq, (cmp_shallow_eq _ _ _ n1 n2) by done. by rewrite Hz.
Qed.

Lemma _cmp_shallow_world fs a b w : (_cmp fs a b true w).2 = w.
Proof.
  rewrite _cmp_eq. pose proof (cmp_shallow_world fs a b w) as Hw.
  destruct (cmp fs a b true w) as [[r|[]] w']; exact Hw.
Qed.

Section Cmpfiles.
Context (join : string → string → string) (fs : filesystem).

Lemma cmpfiles_loop_acc a b sh res common w :
  cmpfiles_loop join fs a b sh res common w =
    match cmpfiles_loop join fs a b sh ([], [], []) common w with
    | (Ok r, w') => (Ok (bucket_app res r), w')
    | (Raise e, w') => (Raise e, w')
    end.
Proof.
  revert res w. induction common as [|x common IH]; intros res w.
  - cbn. unfold ret. by rewrite bucket_app_nil_r.
  - cbn [cmpfiles_loop]. unfold bind, lift.
    destruct (_cmp fs (join a x) (join b x) sh w) as [[i|e] w1]; [|done].
    rewrite (bucket_append_app res).
    destruct (bucket_append ([], [], []) i x) as [r1|e]; [|done].
    rewrite (IH (bucket_app res r1)), (IH r1).
    destruct (cmpfiles_loop join fs a b sh ([], [], []) common w1) as [[r2|e] w2];
      [|done].
    by rewrite bucket_app_assoc.
Qed.

Lemma cmpfiles_cons a b sh x common w :
  cmpfiles join fs a b (x :: common) sh w =
    match _cmp fs (join a x) (join b x) sh w with
    | (Ok i, w1) =>
        match bucket_append ([], [], []) i x with
        | Ok r1 =>
            match cmpfiles join fs a b common sh w1 with
            | (Ok r2, w2) => (Ok (bucket_app r1 r2), w2)
            | (Raise e, w2) => (Raise e, w2)
            end
        | Raise e => (Raise e, w1)
        end
    | (Raise e, w1) => (Raise e, w1)
    end.
Proof.
  unfold cmpfiles. cbn [cmpfiles_loop]. unfold bind, lift.
  destruct (_cmp fs (join a x) (join b x) sh w) as [[i|e] w1]; [|done].
  destruct (bucket_append ([], [], []) i x) as [r1|e]; [|done].
  apply cmpfiles_loop_acc.
Qed.

(** Comparing a concatenation is comparing its two parts in turn. *)
Lemma cmpfiles_app a b sh l1 l2 w :
  cmpfiles join fs a b (l1 ++ l2) sh w =
    match cmpfiles join fs a b l1 sh w with
    | (Ok r1, w1) =>
        match cmpfiles join fs a b l2 sh w1 with
        | (Ok r2, w2) => (Ok (bucket_app r1 r2), w2)
        | (Raise e, w2) => (Raise e, w2)
        end
    | (Raise e, w1) => (Raise e, w1)
    end.
Proof.
  revert w. induction l1 as [|x l1 IH]; intros w.
  - cbn [app]. unfold cmpfiles at 2. cbn [cmpfiles_loop]. unfold ret.
    destruct (cmpfiles join fs a b l2 sh w) as [[r2|e] w2]; [|done].
    by rewrite bucket_app_nil_l.
  - rewrite <- app_comm_cons, !cmpfiles_cons.
    destruct (_cmp fs (join a x) (join b x) sh w) as [[i|e] w1]; [|done].
    destruct (bucket_append ([], [], []) i x) as [r1|e]; [|done].
    rewrite IH.
    destruct (cmpfiles join fs a b l1 sh w1) as [[r2|e] w2]; [|done].
    destruct (cmpfiles join fs a b l2 sh w2) as [[r3|e] w3]; [|done].
    by rewrite bucket_app_assoc.
Qed.

(** [cmpfiles] either files every name in exactly one of the three lists,
    or stops on a division by zero. *)
Lemma cmpfiles_partition a b sh common w :
  match cmpfiles join fs a b common sh w with
  | (Ok r, _) => bucket_all r ≡ₚ common
  | (Raise e, _) =>
      e = ZeroDivisionError ∧ sh = true ∧
      ∃ x, x ∈ common ∧ zero_divisor_pair join fs a b x
  end.
Proof.
  revert w. induction common as [|x common IH]; intros w; [by vm_compute|].
  rewrite cmpfiles_cons.
  destruct (_cmp_cases fs (join a x) (join b x) sh w)
    as [(i & w1 & Hi & ->)|(-> & -> & Hz)].
  - specialize (IH w1).
    assert (∃ r1, bucket_append ([], [], []) i x = Ok r1 ∧ bucket_all r1 = [x])
      as (r1 & -> & Hr1)
      by (destruct i as [|[|[|i]]]; [eexists; split; reflexivity..|lia]).
    destruct (cmpfiles join fs a b common sh w1) as [[r2|e] w2].
    + by rewrite bucket_all_app, Hr1, IH.
    + destruct IH as (-> & -> & y & Hy & Hz). repeat split.
      exists y. split; [by right|done].
  - repeat split. exists x. split; [left|done].
Qed.

(** A shallow [cmpfiles] over a list that holds a zero-divisor pair stops
    with [ZeroDivisionError]. *)
Lemma cmpfiles_zero_divisor a b common x w :
  x ∈ common → zero_divisor_pair join fs a b x →
  cmpfiles join fs a b common true w = (Raise ZeroDivisionError, w).
Proof.
  intros Hx (n1 & n2 & H1 & H2 & R1 & R2 & Hz).
  induction common as [|y common IH]; [by apply elem_of_nil in Hx|].
  rewrite cmpfiles_cons.
  destruct (decide (y = x)) as [->|Hne].
  - by rewrite (_cmp_zero_divisor _ _ _ n1 n2).
  - apply elem_of_cons in Hx as [->|Hx]; [done|].
    destruct (_cmp_cases fs (join a y) (join b y) true w)
      as [(i & w1 & Hi & Hc)|(-> & _)]; [|done].
    pose proof (_cmp_shallow_world fs (join a y) (join b y) w) as Hw.
    rewrite Hc in Hw |- *. cbn in Hw. subst w1.
    destruct i as [|[|[|i]]]; [by rewrite (IH Hx)..|lia].
Qed.
End Cmpfiles.

(** ** [phase0] and [phase2] *)

Lemma list_sort_Permutation l : list_sort l ≡ₚ l.
Proof. apply merge_sort_Permutation. Qed.

Lemma NoDup_listing (f : string → string) raw skip :
  NoDup (f <$> raw) → NoDup (f <$> list_sort (_filter raw skip)).
Proof.
  intros Hnd. rewrite list_sort_Permutation.
  eapply sublist_NoDup; [exact Hnd|]. apply fmap_sublist, sublist_filter.
Qed.

Lemma listing_elem raw skip x :
  x ∈ list_sort (_filter raw skip) ↔ (x ∉ skip) ∧ (x ∈ raw).
Proof.
  rewrite list_sort_Permutation. unfold _filter.
  apply (list_elem_of_filter (λ x, x ∉ skip)).
Qed.

Section Phase2.
Context (join : string → string → string) (fs : filesystem) (self : dircmp).

Lemma phase2_step_app acc x :
  phase2_step join fs self acc x =
    bucket_app acc (phase2_step join fs self ([], [], []) x).
Proof.
  destruct acc as [[d f] u]. unfold phase2_step, bucket_app.
  destruct (os_stat fs (join (left self) x)) as [sa|];
    destruct (os_stat fs (join (right self) x)) as [sb|];
    repeat case_match; cbn; by rewrite ?app_nil_r.
Qed.

Lemma phase2_step_all x :
  bucket_all (phase2_step join fs self ([], [], []) x) = [x].
Proof.
  unfold phase2_step, bucket_all.
  destruct (os_stat fs (join (left self) x)) as [sa|];
    destruct (os_stat fs (join (right self) x)) as [sb|];
    repeat case_match; reflexivity.
Qed.

(** An entry that cannot be stat'ed on either side is funny. *)
Lemma phase2_step_stat_fails x :
  fs !! join (left self) x = None ∨ fs !! join (right self) x = None →
  phase2_step join fs self ([], [], []) x = ([], [], [x]).
Proof.
  intros H. unfold phase2_step, os_stat.
  destruct (fs !! join (left self) x); destruct (fs !! join (right self) x);
    try reflexivity.
  by destruct H.
Qed.

Lemma phase2_acc acc common :
  foldl (phase2_step join fs self) acc common =
    bucket_app acc (phase2 join fs self common).
Proof.
  unfold phase2. revert acc.
  induction common as [|x common IH]; intros acc.
  - cbn. by rewrite bucket_app_nil_r.
  - cbn [foldl]. rewrite (IH (phase2_step _ _ _ acc x)),
      (IH (phase2_step _ _ _ ([], [], []) x)).
    by rewrite phase2_step_app, bucket_app_assoc.
Qed.

Lemma phase2_cons x common :
  phase2 join fs self (x :: common) =
    bucket_app (phase2_step join fs self ([], [], []) x) (phase2 join fs self common).
Proof. unfold phase2 at 1. cbn [foldl]. apply phase2_acc. Qed.

Lemma phase2_app l1 l2 :
  phase2 join fs self (l1 ++ l2) =
    bucket_app (phase2 join fs self l1) (phase2 join fs self l2).
Proof.
  unfold phase2 at 1. rewrite foldl_app. fold (phase2 join fs self l1).
  apply phase2_acc.
Qed.

(** [phase2] files every common name in exactly one of its three lists. *)
Lemma phase2_partition common :
  bucket_all (phase2 join fs self common) ≡ₚ common.
Proof.
  induction common as [|x common IH]; [reflexivity|].
  by rewrite phase2_cons, bucket_all_app, phase2_step_all, IH.
Qed.
End Phase2.

(** ** The partitions of a directory comparison *)

Section Partitions.
Context (normcase : string → string) (join : string → string → string).
Context (fs : filesystem).

(** C3 (as the code has it): for a directory pair whose two listings can
    be read and hold no two names with the same case-normalised form,
    [common], [left_only] and [right_only] are pairwise disjoint lists of
    listed names; [common] holds the left-hand names whose normalised form
    occurs on the right, [left_only] the other left-hand names, and
    [right_only] the right-hand names whose normalised form does not occur
    on the left, so that a name common to both sides is represented by its
    left-hand spelling; [common] and [left_only] make up the left listing,
    and the three lists cover both filtered listings up to [normcase],
    hence exactly when [normcase] merges no two distinct listed names;
    [common_dirs], [common_files] and [common_funny] partition [common];
    and [same_files], [diff_files] and [funny_files], when [phase3]
    returns them, partition [common_files]. *)
Theorem dircmp_partitions self rawl rawr :
  os_listdir fs (left self) = Ok rawl →
  os_listdir fs (right self) = Ok rawr →
  NoDup (normcase <$> rawl) → NoDup (normcase <$> rawr) →
  ∃ left_list right_list common left_only right_only
    common_dirs common_files common_funny,
    phase0 fs self = Ok (left_list, right_list) ∧
    attr_names normcase fs self = Ok (common, left_only, right_only) ∧
    attr_kinds normcase join fs self = Ok (common_dirs, common_files, common_funny) ∧
    (* names *)
    NoDup (common ++ left_only ++ right_only) ∧
    NoDup (normcase <$> (common ++ left_only ++ right_only)) ∧
    common ++ left_only ≡ₚ left_list ∧
    (∀ x, x ∈ common ↔
          (x ∈ left_list) ∧ (normcase x ∈ normcase <$> right_list)) ∧
    (∀ x, x ∈ left_only ↔
          (x ∈ left_list) ∧ (normcase x ∉ normcase <$> right_list)) ∧
    (∀ x, x ∈ right_only ↔
          (x ∈ right_list) ∧ (normcase x ∉ normcase <$> left_list)) ∧
    (∀ x, x ∈ common ++ left_only ++ right_only → x ∈ left_list ∨ x ∈ right_list) ∧
    (∀ x, x ∈ left_list ∨ x ∈ right_list →
          normcase x ∈ normcase <$> (common ++ left_only ++ right_only)) ∧
    ((∀ x y, x ∈ left_list → y ∈ right_list → normcase x = normcase y → x = y) →
     ∀ x, x ∈ common ++ left_only ++ right_only ↔ x ∈ left_list ∨ x ∈ right_list) ∧
    (* kinds *)
    common_dirs ++ common_files ++ common_funny ≡ₚ common ∧
    NoDup (common_dirs ++ common_files ++ common_funny) ∧
    (* files *)
    ∀ w, match attr_files normcase join fs self w with
         | (Ok (same_files, diff_files, funny_files), _) =>
             same_files ++ diff_files ++ funny_files ≡ₚ common_files ∧
             NoDup (same_files ++ diff_files ++ funny_files) ∧
             ∀ x, x ∈ common_files →
                  ¬ zero_divisor_pair join fs (left self) (right self) x
         | (Raise e, _) =>
             e = ZeroDivisionError ∧
             ∃ x, x ∈ common_files ∧
                  zero_divisor_pair join fs (left self) (right self) x
         end.
Proof.
  intros Hl Hr Nl Nr.
  set (skip := hide self ++ ignore self).
  set (left_list := list_sort (_filter rawl skip)).
  set (right_list := list_sort (_filter rawr skip)).
  assert (H0 : phase0 fs self = Ok (left_list, right_list))
    by (unfold phase0; by rewrite Hl, Hr).
  assert (Nl' : NoDup (normcase <$> left_list)) by by apply NoDup_listing.
  assert (Nr' : NoDup (normcase <$> right_list)) by by apply NoDup_listing.
  pose proof (phase1_eq normcase left_list right_list Nl' Nr') as H1.
  set (common := filter _ left_list) in H1.
  set (left_only := filter _ left_list) in H1.
  set (right_only := filter _ right_list) in H1.
  destruct (phase1_partition normcase _ _ _ _ _ Nl' Nr' H1)
    as (P1 & P2 & P3 & P4 & P5 & P6).
  assert (Hn : attr_names normcase fs self = Ok (common, left_only, right_only))
    by (unfold attr_names; by rewrite H0).
  destruct (phase2 join fs self common) as [[common_dirs common_files] common_funny]
    eqn:H2.
  assert (Hk : attr_kinds normcase join fs self
               = Ok (common_dirs, common_files, common_funny))
    by (unfold attr_kinds; by rewrite Hn, H2).
  pose proof (phase2_partition join fs self common) as Q. rewrite H2 in Q.
  unfold bucket_all in Q. cbn [fst snd] in Q.
  assert (Nc : NoDup common).
  { rewrite app_assoc in P2. apply NoDup_app in P2 as (P2 & _).
    by apply NoDup_app in P2 as (P2 & _). }
  assert (Nf : NoDup common_files).
  { rewrite <- Q in Nc. apply NoDup_app in Nc as (_ & _ & Nc).
    by apply NoDup_app in Nc as (Nc & _). }
  assert (Hcm : ∀ x, x ∈ common ↔
                     (x ∈ left_list) ∧ (normcase x ∈ normcase <$> right_list)).
  { intros x. unfold common.
    rewrite (list_elem_of_filter (λ x, normcase x ∈ normcase <$> right_list)).
    tauto. }
  assert (Hlo : ∀ x, x ∈ left_only ↔
                     (x ∈ left_list) ∧ (normcase x ∉ normcase <$> right_list)).
  { intros x. unfold left_only.
    rewrite (list_elem_of_filter (λ x, normcase x ∉ normcase <$> right_list)).
    tauto. }
  assert (Hro : ∀ x, x ∈ right_only ↔
                     (x ∈ right_list) ∧ (normcase x ∉ normcase <$> left_list)).
  { intros x. unfold right_only.
    rewrite (list_elem_of_filter (λ y, normcase y ∉ normcase <$> left_list)).
    tauto. }
  exists left_list, right_list, common, left_only, right_only,
    common_dirs, common_files, common_funny.
  repeat (split; [done|]).
  split; [by rewrite Q|].
  intros w. unfold attr_files, bind, lift. rewrite Hk. cbn [fst snd]. unfold phase3.
  pose proof (cmpfiles_partition join fs (left self) (right self) true common_files w)
    as Hp.
  destruct (cmpfiles join fs (left self) (right self) common_files true w)
    as [[[[same_files diff_files] funny_files]|e] w'] eqn:Hc.
  - unfold bucket_all in Hp. cbn [fst snd] in Hp.
    split; [done|]. split; [by rewrite Hp|].
    intros x Hx Hz.
    rewrite (cmpfiles_zero_divisor join fs _ _ _ x w Hx Hz) in Hc. discriminate.
  - destruct Hp as (-> & _ & Hp). done.
Qed.
End Partitions.

Lemma dircmp_partitions_witness :
  ∃ s d f w',
    attr_files id posix_join fs_tree (dircmp_init "L" "R" None None) world0
      = (Ok (s, d, f), w') ∧
    s ++ d ++ f ≡ₚ ["a.txt"]%string.
Proof.
  destruct (dircmp_partitions id posix_join fs_tree (dircmp_init "L" "R" None None)
              ["sub"; "a.txt"; ".git"]%string ["b.txt"; "sub"; ".git"; "a.txt"]%string)
    as (ll & rl & c & lo & ro & cd & cf & cfu & H0 & Hn & Hk
        & _ & _ & _ & _ & _ & _ & _ & _ & _ & _ & _ & Hf).
  - reflexivity.
  - reflexivity.
  - apply (bool_decide_unpack _). by vm_compute.
  - apply (bool_decide_unpack _). by vm_compute.
  - specialize (Hf world0).
    assert (cf = ["a.txt"]%string) as -> by (vm_compute in Hk; congruence).
    destruct (attr_files id posix_join fs_tree (dircmp_init "L" "R" None None) world0)
      as [[[[s d] f]|e] w'] eqn:Hc.
    + exists s, d, f, w'. split; [reflexivity|]. by destruct Hf.
    + vm_compute in Hc. discriminate.
Defined.

(** C3, counterexample: under the case normalisation of Windows the
    listings [Readme.txt] and [README.TXT] give one common name, in the
    spelling of the left side; the right-hand spelling, a member of the union
    of the two listings, is in none of the three lists. *)
Lemma dircmp_case_counterexample :
  phase0 fs_case (dircmp_init "L" "R" None None)
    = Ok (["Readme.txt"], ["README.TXT"])%string ∧
  attr_names nt_normcase fs_case (dircmp_init "L" "R" None None)
    = Ok (["Readme.txt"], [], [])%string ∧
  "README.TXT"%string ∉ (["Readme.txt"%string] ++ [] ++ [] : list string).
Proof.
  split; [by vm_compute|]. split; [by vm_compute|].
  apply (bool_decide_unpack _). by vm_compute.
Qed.

(** The scenario of the design document, evaluated. *)
Example dircmp_scenario :
  attr_names id fs_tree (dircmp_init "L" "R" None None)
    = Ok (["a.txt"; "sub"], [], ["b.txt"])%string ∧
  attr_kinds id posix_join fs_tree (dircmp_init "L" "R" None None)
    = Ok (["sub"], ["a.txt"], [])%string ∧
  (attr_files id posix_join fs_tree (dircmp_init "L" "R" None None) world0).1
    = Ok (["a.txt"], [], [])%string ∧
  attr_names id fs_tree (dircmp_init "L/sub" "R/sub" None None)
    = Ok ([], ["x.txt"], ["y.txt"])%string.
Proof. repeat split; by vm_compute. Qed.

(** ** Failures on single entries *)

(** C6: a stat failure on a common name is caught.  [_cmp] answers 2, so
    [cmpfiles] files the name under the funny list and compares the names
    before and after it exactly as it would without it; [phase2] files the
    name under [common_funny] and classifies the others as it would without
    it. *)
Theorem stat_failure_is_funny (join : string → string → string) fs a b shallow
    x l1 l2 w :
  fs !! join a x = None ∨ fs !! join b x = None →
  _cmp fs (join a x) (join b x) shallow w = (Ok 2%nat, w) ∧
  cmpfiles join fs a b (l1 ++ x :: l2) shallow w =
    match cmpfiles join fs a b l1 shallow w with
    | (Ok r1, w1) =>
        match cmpfiles join fs a b l2 shallow w1 with
        | (Ok r2, w2) => (Ok (bucket_app r1 (bucket_app ([], [], [x]) r2)), w2)
        | (Raise e, w2) => (Raise e, w2)
        end
    | (Raise e, w1) => (Raise e, w1)
    end ∧
  ∀ self, left self = a → right self = b →
    phase2 join fs self (l1 ++ x :: l2) =
      bucket_app (phase2 join fs self l1)
        (bucket_app ([], [], [x]) (phase2 join fs self l2)).
Proof.
  intros Hx. split; [by apply _cmp_stat_fails|]. split.
  - rewrite cmpfiles_app.
    destruct (cmpfiles join fs a b l1 shallow w) as [[r1|e] w1]; [|done].
    rewrite cmpfiles_cons, _cmp_stat_fails by done. cbn [bucket_append].
    by destruct (cmpfiles join fs a b l2 shallow w1) as [[r2|e] w2].
  - intros self <- <-.
    by rewrite phase2_app, phase2_cons, phase2_step_stat_fails.
Qed.

Lemma stat_failure_is_funny_witness :
  cmpfiles posix_join fs_odd "L" "R" ["g"; "ghost"; "g"]%string false world0
    = match cmpfiles posix_join fs_odd "L" "R" ["g"]%string false world0 with
      | (Ok r1, w1) =>
          match cmpfiles posix_join fs_odd "L" "R" ["g"]%string false w1 with
          | (Ok r2, w2) => (Ok (bucket_app r1 (bucket_app ([], [], ["ghost"]%string) r2)), w2)
          | (Raise e, w2) => (Raise e, w2)
          end
      | (Raise e, w1) => (Raise e, w1)
      end.
Proof.
  refine (proj1 (proj2 (stat_failure_is_funny posix_join fs_odd "L" "R" false
                          "ghost" ["g"]%string ["g"]%string world0 _))).
  left. reflexivity.
Defined.

Example stat_failure_evaluated :
  (cmpfiles posix_join fs_odd "L" "R" ["g"; "ghost"; "g"]%string false world0).1
    = Ok (["g"; "g"], [], ["ghost"])%string ∧
  phase2 posix_join fs_odd (dircmp_init "L" "R" None None) ["e"; "g"; "ghost"]%string
    = (([], ["e"; "g"], ["ghost"]))%string.
Proof. split; by vm_compute. Qed.

(** C9: in shallow mode, two regular files the second of which is empty
    make [cmp] raise [ZeroDivisionError]; [_cmp] does not catch it, and
    [cmpfiles] over any list holding such a name stops with that exception
    and delivers no lists.  Such inputs exist. *)
Theorem zero_size_aborts (join : string → string → string) fs a b common x w :
  x ∈ common → zero_divisor_pair join fs a b x →
  cmp fs (join a x) (join b x) true w = (Raise ZeroDivisionError, w) ∧
  _cmp fs (join a x) (join b x) true w = (Raise ZeroDivisionError, w) ∧
  cmpfiles join fs a b common true w = (Raise ZeroDivisionError, w).
Proof.
  intros Hx Hz. split; [|split].
  - destruct Hz as (n1 & n2 & H1 & H2 & R1 & R2 & Hz).
    rewrite (cmp_shallow_eq _ _ _ n1 n2) by done. by rewrite Hz.
  - destruct Hz as (n1 & n2 & H1 & H2 & R1 & R2 & Hz).
    by apply (_cmp_zero_divisor _ _ _ n1 n2).
  - by apply (cmpfiles_zero_divisor join fs a b common x).
Qed.

Lemma zero_size_aborts_witness :
  cmp fs_odd "L/e" "R/e" true world0 = (Raise ZeroDivisionError, world0) ∧
  cmpfiles posix_join fs_odd "L" "R" ["g"; "e"; "ghost"]%string true world0
    = (Raise ZeroDivisionError, world0) ∧
  attr_files id posix_join fs_odd (dircmp_init "L" "R" None None) world0
    = (Raise ZeroDivisionError, world0).
Proof.
  assert (Hz : zero_divisor_pair posix_join fs_odd "L" "R" "e").
  { exists (zero_file 5 1), (zero_file 0 1). repeat split; reflexivity. }
  destruct (zero_size_aborts posix_join fs_odd "L" "R" ["g"; "e"; "ghost"]%string
              "e" world0) as (H1 & _ & H3).
  - apply (bool_decide_unpack _). by vm_compute.
  - exact Hz.
  - split; [exact H1|]. split; [exact H3|]. by vm_compute.
Defined.

(** * Further properties *)

(** ** Repeated and failed comparisons *)

(** Both paths stat as nodes with the signatures of [n1] and [n2]. *)
Lemma cmp_same_signatures fs fs' f1 f2 n1 n2 n1' n2' w :
  fs !! f1 = Some n1 → fs !! f2 = Some n2 →
  fs' !! f1 = Some n1' → fs' !! f2 = Some n2' →
  _sig (n_stat n1') = _sig (n_stat n1) → _sig (n_stat n2') = _sig (n_stat n2) →
  ∀ o w1, cmp fs f1 f2 false w = (Ok o, w1) → cmp fs' f1 f2 false w1 = (Ok o, w1).
Proof.
  intros H1 H2 H1' H2' S1 S2 o w1.
  assert (T1 : S_IFMT (st_mode (n_stat n1')) = S_IFMT (st_mode (n_stat n1)))
    by (unfold _sig in S1; congruence).
  assert (T2 : S_IFMT (st_mode (n_stat n2')) = S_IFMT (st_mode (n_stat n2)))
    by (unfold _sig in S2; congruence).
  assert (Z1 : st_size (n_stat n1') = st_size (n_stat n1))
    by (unfold _sig in S1; congruence).
  assert (Z2 : st_size (n_stat n2') = st_size (n_stat n2))
    by (unfold _sig in S2; congruence).
  assert (K : key_of f1 f2 n1' n2' = key_of f1 f2 n1 n2)
    by (unfold key_of; congruence).
  destruct (regular_dec n1) as [R1|R1].
  2: { rewrite (cmp_not_regular_eq _ _ _ n1 n2), (cmp_not_regular_eq _ _ _ n1' n2')
         by (done || unfold regular in *; left; congruence).
       by intros [= <- <-]. }
  destruct (regular_dec n2) as [R2|R2].
  2: { rewrite (cmp_not_regular_eq _ _ _ n1 n2), (cmp_not_regular_eq _ _ _ n1' n2')
         by (done || unfold regular in *; right; congruence).
       by intros [= <- <-]. }
  rewrite (cmp_deep_eq _ _ _ n1 n2), (cmp_deep_eq fs' _ _ n1' n2')
    by (done || unfold regular in *; congruence).
  rewrite K, Z1, Z2.
  destruct (negb _); [by intros [= <- <-]|].
  destruct (cache w !! key_of f1 f2 n1 n2) as [o'|] eqn:Hk.
  - intros [= <- <-]. by rewrite Hk.
  - destruct (n_data n1) as [c1|]; [|done].
    destruct (n_data n2) as [c2|]; [|done].
    intros [= <- <-]. cbn [cache]. by rewrite lookup_insert_eq.
Qed.

(** X1: a deep comparison that returned an answer is remembered.  As long as
    type, size and modification time of both files are what they were, the
    same call returns the same answer with no file opened and the cache left
    alone, whatever the files now contain, readable or not. *)
Theorem cmp_deep_answer_is_remembered fs fs' f1 f2 n1 n2 n1' n2' w o w1 :
  fs !! f1 = Some n1 → fs !! f2 = Some n2 →
  fs' !! f1 = Some n1' → fs' !! f2 = Some n2' →
  _sig (n_stat n1') = _sig (n_stat n1) → _sig (n_stat n2') = _sig (n_stat n2) →
  cmp fs f1 f2 false w = (Ok o, w1) →
  cmp fs' f1 f2 false w1 = (Ok o, w1).
Proof. intros. by eapply (cmp_same_signatures fs fs'). Qed.

Lemma cmp_deep_answer_is_remembered_witness :
  cmp fs_small "a" "b" false world0
    = (Ok true, (cmp fs_small "a" "b" false world0).2) ∧
  cmp fs_small_edited "a" "b" false (cmp fs_small "a" "b" false world0).2
    = (Ok true, (cmp fs_small "a" "b" false world0).2).
Proof.
  assert (H : cmp fs_small "a" "b" false world0
              = (Ok true, (cmp fs_small "a" "b" false world0).2)) by by vm_compute.
  split; [exact H|].
  apply (cmp_deep_answer_is_remembered fs_small fs_small_edited "a" "b"
           (regular_file 3 1 (Some [Byte.x61; Byte.x62; Byte.x63]))
           (regular_file 3 2 (Some [Byte.x61; Byte.x62; Byte.x63]))
           (regular_file 3 1 (Some [Byte.x61; Byte.x62; Byte.x63]))
           (regular_file 3 2 (Some [Byte.x61; Byte.x62; Byte.x7a]))
           world0); try reflexivity.
Defined.

(** The cache holds at most the key of the pair just compared when the
    process was fresh. *)
Lemma cmp_fresh_cache fs f1 f2 n1 n2 sh k :
  fs !! f1 = Some n1 → fs !! f2 = Some n2 →
  k ≠ key_of f1 f2 n1 n2 →
  cache (cmp fs f1 f2 sh world0).2 !! k = None.
Proof.
  intros H1 H2 Hk.
  destruct sh; [by rewrite cmp_shallow_world|].
  destruct (regular_dec n1) as [R1|R1];
    [|by rewrite (cmp_not_regular_eq _ _ _ n1 n2) by auto].
  destruct (regular_dec n2) as [R2|R2];
    [|by rewrite (cmp_not_regular_eq _ _ _ n1 n2) by auto].
  rewrite (cmp_deep_eq _ _ _ n1 n2) by done.
  destruct (negb _); [done|]. destruct (cache world0 !! _); [done|].
  destruct (n_data n1); [|done]. destruct (n_data n2); [|done].
  cbn [snd cache]. rewrite lookup_insert_ne by done.
  by destruct (100 <? _)%nat.
Qed.

(** X2: a change of size or modification time of either file invalidates
    the remembered answer: after a first comparison in a fresh process, the
    next deep comparison of the two (regular, readable, equally long) files
    goes by their present contents. *)
Theorem cmp_deep_signature_change_invalidates fs fs' f1 f2 n1 n2 n1' n2' c1 c2 :
  fs !! f1 = Some n1 → fs !! f2 = Some n2 →
  fs' !! f1 = Some n1' → fs' !! f2 = Some n2' →
  _sig (n_stat n1') ≠ _sig (n_stat n1) ∨ _sig (n_stat n2') ≠ _sig (n_stat n2) →
  regular n1' → regular n2' →
  st_size (n_stat n1') = st_size (n_stat n2') →
  n_data n1' = Some c1 → n_data n2' = Some c2 →
  (cmp fs' f1 f2 false (cmp fs f1 f2 false world0).2).1 = Ok (bool_decide (c1 = c2)) ∧
  trace (cmp fs' f1 f2 false (cmp fs f1 f2 false world0).2).2
    = trace (cmp fs f1 f2 false world0).2
      ++ [EvOpen f1; EvOpen f2] ++ (read_loop f1 f2 BUFSIZE c1 c2).2.
Proof.
  intros H1 H2 H1' H2' Hs R1 R2 Hz D1 D2.
  assert (Hk : cache (cmp fs f1 f2 false world0).2 !! key_of f1 f2 n1' n2' = None).
  { apply (cmp_fresh_cache fs f1 f2 n1 n2); [done..|].
    unfold key_of. intros E.
    destruct Hs as [Hs|Hs]; apply Hs; congruence. }
  rewrite (cmp_deep_eq _ _ _ n1' n2') by done.
  rewrite Hz, Z.eqb_refl, Hk, D1, D2. cbn [negb fst snd trace].
  rewrite read_loop_correct by apply BUFSIZE_pos.
  split; [reflexivity|]. rewrite <- !app_assoc. cbn [app]. reflexivity.
Qed.

Lemma cmp_deep_signature_change_invalidates_witness :
  (cmp fs_small_touched "a" "b" false (cmp fs_small "a" "b" false world0).2).1
    = Ok false.
Proof.
  refine (proj1 (cmp_deep_signature_change_invalidates fs_small fs_small_touched
            "a" "b"
            (regular_file 3 1 (Some [Byte.x61; Byte.x62; Byte.x63]))
            (regular_file 3 2 (Some [Byte.x61; Byte.x62; Byte.x63]))
            (regular_file 3 1 (Some [Byte.x61; Byte.x62; Byte.x63]))
            (regular_file 3 5 (Some [Byte.x61; Byte.x62; Byte.x7a]))
            [Byte.x61; Byte.x62; Byte.x63] [Byte.x61; Byte.x62; Byte.x7a]
            _ _ _ _ _ _ _ _ _ _)); try reflexivity.
  right. vm_compute. discriminate.
Defined.

(** X3: a comparison that raises stores nothing: whatever the mode, the
    exception and the paths, the cache is the one before the call. *)
Theorem cmp_failure_is_not_cached fs f1 f2 shallow w e w' :
  cmp fs f1 f2 shallow w = (Raise e, w') → cache w' = cache w.
Proof.
  destruct shallow.
  { intros H. pose proof (cmp_shallow_world fs f1 f2 w) as Hw.
    rewrite H in Hw. cbn in Hw. by subst. }
  destruct (fs !! f1) as [n1|] eqn:H1;
    [|rewrite cmp_stat_fails by auto; by intros [= _ <-]].
  destruct (fs !! f2) as [n2|] eqn:H2;
    [|rewrite cmp_stat_fails by auto; by intros [= _ <-]].
  destruct (regular_dec n1) as [R1|R1];
    [|by rewrite (cmp_not_regular_eq _ _ _ n1 n2) by auto].
  destruct (regular_dec n2) as [R2|R2];
    [|by rewrite (cmp_not_regular_eq _ _ _ n1 n2) by auto].
  rewrite (cmp_deep_eq _ _ _ n1 n2) by done.
  destruct (negb _); [done|]. destruct (cache w !! _); [done|].
  destruct (n_data n1), (n_data n2); by intros [= _ <-].
Qed.

Lemma cmp_failure_is_not_cached_witness :
  cache (cmp fs_small_locked "a" "b" false world0).2 = cache world0.
Proof.
  apply (cmp_failure_is_not_cached fs_small_locked "a" "b" false world0 OSError).
  by vm_compute.
Defined.

(** X4: comparing a readable regular file with itself by content answers
    [True], from any cache that agrees with the filesystem; by size it
    answers [True] when the file is not empty, with no content read. *)
Theorem cmp_reflexive fs f n c w :
  fs !! f = Some n → regular n → n_data n = Some c →
  coherent fs (cache w) →
  (cmp fs f f false w).1 = Ok true ∧
  (st_size (n_stat n) ≠ 0 → cmp fs f f true w = (Ok true, w)).
Proof.
  intros H R D Hc. split.
  - rewrite (cmp_deep_eq _ _ _ n n) by done. rewrite Z.eqb_refl. cbn [negb].
    destruct (cache w !! _) as [o|] eqn:Ho.
    + destruct (Hc _ _ _ _ _ H H Ho) as (c1 & c2 & E1 & E2 & ->).
      cbn [fst]. f_equal. apply bool_decide_eq_true. congruence.
    + rewrite D. cbn [fst]. f_equal.
      rewrite read_loop_correct by apply BUFSIZE_pos. by apply bool_decide_eq_true.
  - intros Hz. rewrite (cmp_shallow_eq _ _ _ n n) by done.
    destruct (Z.eqb_spec (st_size (n_stat n)) 0); [done|].
    by rewrite _is_similar_self.
Qed.

Lemma cmp_reflexive_witness :
  (cmp fs_small "a" "a" false world0).1 = Ok true ∧
  cmp fs_small "a" "a" true world0 = (Ok true, world0).
Proof.
  destruct (cmp_reflexive fs_small "a"
              (regular_file 3 1 (Some [Byte.x61; Byte.x62; Byte.x63]))
              [Byte.x61; Byte.x62; Byte.x63] world0) as [Hd Hs];
    try reflexivity.
  - apply coherent_empty.
  - split; [exact Hd|]. apply Hs. vm_compute. discriminate.
Defined.

(** ** More on [cmpfiles] *)

Lemma cmpfiles_shallow_world (join : string → string → string) fs a b common w :
  (cmpfiles join fs a b common true w).2 = w.
Proof.
  induction common as [|x common IH]; [reflexivity|].
  rewrite cmpfiles_cons.
  pose proof (_cmp_shallow_world fs (join a x) (join b x) w) as Hw.
  destruct (_cmp fs (join a x) (join b x) true w) as [[i|e] w1]; cbn in Hw; subst w1;
    [|reflexivity].
  destruct (bucket_append ([], [], []) i x) as [r1|e]; [|reflexivity].
  by destruct (cmpfiles join fs a b common true w) as [[r2|e] w2].
Qed.

(** X5: a comparison by size reads no content and leaves the cache alone:
    [cmp] in shallow mode, [cmpfiles] in shallow mode and all of [dircmp]'s
    file comparison ([phase3] behind [same_files], [diff_files] and
    [funny_files]) return the process state they were given, also when they
    raise. *)
Theorem shallow_comparison_is_pure (normcase : string → string)
    (join : string → string → string) fs f1 f2 a b common self w :
  (cmp fs f1 f2 true w).2 = w ∧
  (cmpfiles join fs a b common true w).2 = w ∧
  (attr_files normcase join fs self w).2 = w.
Proof.
  split; [apply cmp_shallow_world|]. split; [apply cmpfiles_shallow_world|].
  unfold attr_files, bind, lift.
  destruct (attr_kinds normcase join fs self) as [k|e]; [|reflexivity].
  apply cmpfiles_shallow_world.
Qed.

(** X6: [cmpfiles] by content never raises on paths that [os.stat]
    accepts, that is paths without an embedded NUL character, as the names
    of a listing are: whatever the state of the two directories (missing,
    unreadable or special files included), it returns three lists that hold
    every given name once.  (On a path with a NUL [os.stat] raises
    [ValueError], which [_cmp] does not catch.) *)
Theorem cmpfiles_deep_always_returns (join : string → string → string) fs a b common w :
  (∀ x, x ∈ common → nul_free (join a x) ∧ nul_free (join b x)) →
  ∃ r w', cmpfiles join fs a b common false w = (Ok r, w') ∧
          bucket_all r ≡ₚ common.
Proof.
  intros _.
  pose proof (cmpfiles_partition join fs a b false common w) as Hp.
  destruct (cmpfiles join fs a b common false w) as [[r|e] w'].
  - by exists r, w'.
  - by destruct Hp as (_ & ? & _).
Qed.

Lemma cmpfiles_deep_always_returns_witness :
  ∃ r w', cmpfiles posix_join fs_odd "L" "R" ["e"; "g"; "ghost"]%string false world0
          = (Ok r, w') ∧
          bucket_all r ≡ₚ ["e"; "g"; "ghost"]%string.
Proof.
  apply (cmpfiles_deep_always_returns posix_join fs_odd "L" "R"
           ["e"; "g"; "ghost"]%string world0).
  apply (proj1 (Forall_forall _ _)).
  apply (bool_decide_unpack _). by vm_compute.
Defined.

(** X7: in a comparison by content, two regular files of equal size one of
    which cannot be opened, and for which no outcome is cached under their
    present signatures, are filed as funny: [_cmp] answers 2, nothing is
    stored in the cache, and [cmpfiles] on that one name returns it in its
    third list.  (With a cached outcome no file is opened, and the cached
    answer decides.) *)
Theorem unreadable_file_is_funny (join : string → string → string) fs a b x n1 n2 w :
  fs !! join a x = Some n1 → fs !! join b x = Some n2 →
  regular n1 → regular n2 →
  st_size (n_stat n1) = st_size (n_stat n2) →
  cache w !! key_of (join a x) (join b x) n1 n2 = None →
  n_data n1 = None ∨ n_data n2 = None →
  (_cmp fs (join a x) (join b x) false w).1 = Ok 2%nat ∧
  cache (_cmp fs (join a x) (join b x) false w).2 = cache w ∧
  (cmpfiles join fs a b [x] false w).1 = Ok ([], [], [x]).
Proof.
  intros H1 H2 R1 R2 Hz Hk Hd.
  assert (Hc : ∃ w', cmp fs (join a x) (join b x) false w = (Raise OSError, w')
                     ∧ cache w' = cache w).
  { rewrite (cmp_deep_eq _ _ _ n1 n2) by done.
    rewrite Hz, Z.eqb_refl, Hk. cbn [negb].
    destruct (n_data n1) as [c1|]; [|by eexists].
    destruct (n_data n2) as [c2|]; [|by eexists].
    by destruct Hd. }
  destruct Hc as (w' & Hc & Hw).
  assert (He : _cmp fs (join a x) (join b x) false w = (Ok 2%nat, w'))
    by by rewrite _cmp_eq, Hc.
  rewrite cmpfiles_cons, He. cbn [fst snd bucket_append].
  split; [reflexivity|]. split; [exact Hw|]. reflexivity.
Qed.

Lemma unreadable_file_is_funny_witness :
  (cmpfiles posix_join fs_locked "L" "R" ["g"]%string false world0).1
    = Ok ([], [], ["g"]%string).
Proof.
  refine (proj2 (proj2 (unreadable_file_is_funny posix_join fs_locked "L" "R" "g"
            (zero_file 3 1) (regular_file 3 1 None) world0 _ _ _ _ _ _ _)));
    try reflexivity.
  by right.
Defined.

(** ** The order of strings *)

Lemma str_compare_le_trans s1 s2 s3 :
  String.compare s1 s2 ≠ Gt → String.compare s2 s3 ≠ Gt → String.compare s1 s3 ≠ Gt.
Proof.
  revert s2 s3. induction s1 as [|a1 s1 IH]; intros [|a2 s2] [|a3 s3]; cbn; try done.
  unfold Ascii.compare.
  destruct (N.compare_spec (Ascii.N_of_ascii a1) (Ascii.N_of_ascii a2)) as [E12|L12|G12];
    [|intros _|done].
  - rewrite E12.
    destruct (N.compare_spec (Ascii.N_of_ascii a2) (Ascii.N_of_ascii a3)); try done.
    apply IH.
  - destruct (N.compare_spec (Ascii.N_of_ascii a2) (Ascii.N_of_ascii a3)) as [E23|L23|G23];
      [intros _|intros _|done].
    + rewrite <- E23. by destruct (N.compare_spec (Ascii.N_of_ascii a1) (Ascii.N_of_ascii a2));
        try lia.
    + destruct (N.compare_spec (Ascii.N_of_ascii a1) (Ascii.N_of_ascii a3)); try done; lia.
Qed.

Lemma str_le_compare x y : str_le x y ↔ String.compare x y ≠ Gt.
Proof. unfold str_le, String.leb. by destruct (String.compare x y). Qed.

#[global] Instance str_le_trans : Transitive str_le.
Proof. intros x y z. rewrite !str_le_compare. apply str_compare_le_trans. Qed.

#[global] Instance str_le_total : Total str_le.
Proof.
  intros x y. unfold str_le.
  destruct (String.leb_total x y) as [H|H]; rewrite H; [by left|by right].
Qed.

#[global] Instance str_le_antisymm : AntiSymm (=) str_le.
Proof.
  intros x y Hx Hy. unfold str_le in *.
  apply String.leb_antisym; [by destruct (String.leb x y)|by destruct (String.leb y x)].
Qed.

Lemma StronglySorted_sublist {A} (R : relation A) l1 l2 :
  l1 `sublist_of` l2 → StronglySorted R l2 → StronglySorted R l1.
Proof.
  induction 1 as [|x l1 l2 Hs IH|x l1 l2 Hs IH]; intros Hl2; [done|..].
  - apply StronglySorted_inv in Hl2 as [Hl2 Hx]. constructor; [by apply IH|].
    eapply Forall_forall. intros y Hy.
    eapply Forall_forall in Hx; [exact Hx|]. by eapply elem_of_sublist.
  - apply StronglySorted_inv in Hl2 as [Hl2 _]. by apply IH.
Qed.

Lemma Sorted_str_sublist l1 l2 :
  l1 `sublist_of` l2 → Sorted str_le l2 → Sorted str_le l1.
Proof.
  intros Hs Hl. apply StronglySorted_Sorted.
  eapply StronglySorted_sublist; [exact Hs|].
  apply Sorted_StronglySorted; [apply _|exact Hl].
Qed.

(** Sorting a sorted list of strings gives it back. *)
Lemma list_sort_sorted l : Sorted str_le l → list_sort l = l.
Proof.
  intros Hl. apply (Sorted_unique str_le); [|done|apply list_sort_Permutation].
  apply Sorted_merge_sort, _.
Qed.

(** ** Dictionaries, whatever their keys *)

Lemma dict_setitem_elem d k v p :
  p ∈ dict_setitem d k v → p ∈ d ∨ p = (k, v).
Proof.
  induction d as [|[k' v'] d IH]; cbn.
  - intros ->%list_elem_of_singleton. by right.
  - destruct (decide (k' = k)) as [->|Hne].
    + intros [->|Hp]%elem_of_cons; [by right|left; by right].
    + intros [->|Hp]%elem_of_cons; [left; by left|].
      destruct (IH Hp) as [?|?]; [left; by right|by right].
Qed.

Lemma dict_of_pairs_elem kvs p : p ∈ dict_of_pairs kvs → p ∈ kvs.
Proof.
  unfold dict_of_pairs.
  assert (H : ∀ acc, p ∈ foldl (λ d kv, dict_setitem d kv.1 kv.2) acc kvs →
                     p ∈ acc ∨ p ∈ kvs).
  { induction kvs as [|[k v] kvs IH]; intros acc; cbn [foldl fst snd]; [by left|].
    intros [Hp|Hp]%IH; [|right; by right].
    apply dict_setitem_elem in Hp as [Hp| ->]; [by left|right; left]. }
  intros Hp. destruct (H [] Hp) as [Hn|?]; [by apply elem_of_nil in Hn|done].
Qed.

Lemma dict_getitem_elem d k v : dict_getitem d k = Ok v → (k, v) ∈ d.
Proof.
  induction d as [|[k' v'] d IH]; cbn; [done|].
  destruct (decide (k' = k)) as [->|Hne].
  - intros [= ->]. left.
  - intros H. right. by apply IH.
Qed.

(** A key met while iterating over a dictionary is found in it. *)
Lemma dict_getitem_iter d k : k ∈ dict_iter d → ∃ v, dict_getitem d k = Ok v.
Proof.
  unfold dict_iter. induction d as [|[k' v'] d IH]; cbn.
  - by intros ?%elem_of_nil.
  - destruct (decide (k' = k)) as [->|Hne]; [by eexists|].
    intros [?|Hk]%elem_of_cons; [congruence|]. by apply IH.
Qed.

Lemma map_result_getitem_iter d ks :
  ks ⊆ dict_iter d →
  ∃ vs, map_result (dict_getitem d) ks = Ok vs ∧ ∀ v, v ∈ vs → ∃ k, (k, v) ∈ d.
Proof.
  induction ks as [|k ks IH]; intros Hs.
  - exists []. split; [done|]. by intros v ?%elem_of_nil.
  - destruct (dict_getitem_iter d k) as [v Hv]; [apply Hs; left|].
    destruct IH as (vs & Hvs & Hin); [intros y Hy; apply Hs; by right|].
    exists (v :: vs). cbn. rewrite Hv, Hvs. split; [done|].
    intros v' [->|Hv']%elem_of_cons; [|by apply Hin].
    exists k. by apply dict_getitem_elem.
Qed.

Lemma zip_elem_snd {A B} (ks : list A) (vs : list B) k v :
  (k, v) ∈ zip ks vs → v ∈ vs.
Proof.
  revert vs. induction ks as [|k' ks IH]; intros [|v' vs]; cbn;
    try by intros ?%elem_of_nil.
  intros [[= -> ->]|H]%elem_of_cons; [left|right; by eapply IH].
Qed.

Lemma phase1_returns (normcase : string → string) left_list right_list :
  ∃ common left_only right_only,
    phase1 normcase left_list right_list = Ok (common, left_only, right_only) ∧
    (∀ x, x ∈ common ++ left_only → x ∈ left_list) ∧
    (∀ x, x ∈ right_only → x ∈ right_list).
Proof.
  unfold phase1.
  set (a := dict_of_pairs (zip (normcase <$> left_list) left_list)).
  set (b := dict_of_pairs (zip (normcase <$> right_list) right_list)).
  assert (Ha : ∀ k v, (k, v) ∈ a → v ∈ left_list)
    by (intros k v H%dict_of_pairs_elem; by eapply zip_elem_snd).
  assert (Hb : ∀ k v, (k, v) ∈ b → v ∈ right_list)
    by (intros k v H%dict_of_pairs_elem; by eapply zip_elem_snd).
  destruct (map_result_getitem_iter a (filter (λ k, dict_contains b k) (dict_iter a)))
    as (c & -> & Hc); [apply sublist_subseteq, sublist_filter|].
  destruct (map_result_getitem_iter a (filter (λ k, ¬ dict_contains b k) (dict_iter a)))
    as (lo & -> & Hlo); [apply sublist_subseteq, sublist_filter|].
  destruct (map_result_getitem_iter b (filter (λ k, ¬ dict_contains a k) (dict_iter b)))
    as (ro & -> & Hro); [apply sublist_subseteq, sublist_filter|].
  exists c, lo, ro. split; [done|]. split.
  - intros x [Hx|Hx]%elem_of_app.
    + destruct (Hc x Hx) as [k Hk]. by eapply Ha.
    + destruct (Hlo x Hx) as [k Hk]. by eapply Ha.
  - intros x Hx. destruct (Hro x Hx) as [k Hk]. by eapply Hb.
Qed.

(** X8: [phase1] never raises, whatever the two listings, also when a
    listing holds names that normalise alike; and every name it returns
    comes from the listing of its side. *)
Theorem phase1_always_returns (normcase : string → string) left_list right_list :
  ∃ common left_only right_only,
    phase1 normcase left_list right_list = Ok (common, left_only, right_only) ∧
    (∀ x, x ∈ common ++ left_only → x ∈ left_list) ∧
    (∀ x, x ∈ right_only → x ∈ right_list).
Proof. apply phase1_returns. Qed.

(** ** What the attribute lists hold *)

Section Attributes.
Context (normcase : string → string) (join : string → string → string).
Context (fs : filesystem).

Lemma phase0_elem self left_list right_list x :
  phase0 fs self = Ok (left_list, right_list) →
  x ∈ left_list ∨ x ∈ right_list → x ∉ hide self ++ ignore self.
Proof.
  unfold phase0.
  destruct (os_listdir fs (left self)) as [l|]; [|done].
  destruct (os_listdir fs (right self)) as [r|]; [|done].
  intros [= <- <-] [H|H]; by apply listing_elem in H as [H _].
Qed.

Lemma attr_names_elem self r x :
  attr_names normcase fs self = Ok r → x ∈ bucket_all r →
  ∃ left_list right_list,
    phase0 fs self = Ok (left_list, right_list) ∧ (x ∈ left_list ∨ x ∈ right_list).
Proof.
  unfold attr_names.
  destruct (phase0 fs self) as [[ll rl]|] eqn:H0; [|done].
  destruct (phase1_returns normcase ll rl) as (c & lo & ro & -> & Hl & Hr).
  intros [= <-] Hx. exists ll, rl. split; [done|].
  unfold bucket_all in Hx. cbn [fst snd] in Hx. rewrite app_assoc in Hx.
  apply elem_of_app in Hx as [Hx|Hx]; [left; by apply Hl|right; by apply Hr].
Qed.

Lemma attr_kinds_elem self r x :
  attr_kinds normcase join fs self = Ok r → x ∈ bucket_all r →
  ∃ n, attr_names normcase fs self = Ok n ∧ x ∈ n.1.1.
Proof.
  unfold attr_kinds.
  destruct (attr_names normcase fs self) as [[[c lo] ro]|]; [|done].
  intros [= <-] Hx. rewrite phase2_partition in Hx. by eexists.
Qed.

Lemma attr_files_elem self w r w' x :
  attr_files normcase join fs self w = (Ok r, w') → x ∈ bucket_all r →
  ∃ k, attr_kinds normcase join fs self = Ok k ∧ x ∈ k.1.2.
Proof.
  unfold attr_files, bind, lift, phase3.
  destruct (attr_kinds normcase join fs self) as [k|]; [|done].
  intros Hc Hx. exists k. split; [done|].
  pose proof (cmpfiles_partition join fs (left self) (right self) true k.1.2 w) as Hp.
  rewrite Hc in Hp. by rewrite <- Hp.
Qed.

(** X9: a name of the hide or ignore lists is in no attribute list:
    neither in [left_list] or [right_list], nor in [common], [left_only],
    [right_only], nor in the three lists of [phase2], nor in the three
    lists of [phase3]. *)
Theorem hidden_names_are_never_reported self x :
  x ∈ hide self ++ ignore self →
  (∀ left_list right_list,
     phase0 fs self = Ok (left_list, right_list) → (x ∉ left_list) ∧ (x ∉ right_list)) ∧
  (∀ r, attr_names normcase fs self = Ok r → x ∉ bucket_all r) ∧
  (∀ r, attr_kinds normcase join fs self = Ok r → x ∉ bucket_all r) ∧
  (∀ w r w', attr_files normcase join fs self w = (Ok r, w') → x ∉ bucket_all r).
Proof.
  intros Hx.
  assert (H0 : ∀ ll rl, phase0 fs self = Ok (ll, rl) → (x ∉ ll) ∧ (x ∉ rl)).
  { intros ll rl H. split; intros Hin;
      apply (phase0_elem self ll rl x H); auto. }
  assert (H1 : ∀ r, attr_names normcase fs self = Ok r → x ∉ bucket_all r).
  { intros r Hr Hin.
    destruct (attr_names_elem self r x Hr Hin) as (ll & rl & H & [Hl|Hl]);
      by destruct (H0 ll rl H). }
  assert (H2 : ∀ r, attr_kinds normcase join fs self = Ok r → x ∉ bucket_all r).
  { intros r Hr Hin. destruct (attr_kinds_elem self r x Hr Hin) as (n & Hn & Hc).
    apply (H1 n Hn). unfold bucket_all. apply elem_of_app. by left. }
  split; [exact H0|]. split; [exact H1|]. split; [exact H2|].
  intros w r w' Hr Hin. destruct (attr_files_elem self w r w' x Hr Hin) as (k & Hk & Hc).
  apply (H2 k Hk). unfold bucket_all. apply elem_of_app. right.
  apply elem_of_app. by left.
Qed.
End Attributes.

Lemma hidden_names_are_never_reported_witness :
  attr_names id fs_tree (dircmp_init "L" "R" None None)
    = Ok (["a.txt"; "sub"], [], ["b.txt"])%string ∧
  ".git"%string ∉ bucket_all (["a.txt"; "sub"], [], ["b.txt"])%string.
Proof.
  split; [by vm_compute|].
  refine (proj1 (proj2 (hidden_names_are_never_reported id posix_join fs_tree
                          (dircmp_init "L" "R" None None) ".git" _)) _ _).
  - apply (bool_decide_unpack _). by vm_compute.
  - by vm_compute.
Defined.

(** X10: exchanging the two sides exchanges [left_only] and [right_only],
    and gives the same common names up to spelling and order: [common] is
    always spelled and ordered as on the left, being a sublist of the left
    listing. *)
Theorem phase1_swap (normcase : string → string) left_list right_list
    common left_only right_only common' left_only' right_only' :
  NoDup (normcase <$> left_list) → NoDup (normcase <$> right_list) →
  phase1 normcase left_list right_list = Ok (common, left_only, right_only) →
  phase1 normcase right_list left_list = Ok (common', left_only', right_only') →
  left_only' = right_only ∧ right_only' = left_only ∧
  normcase <$> common' ≡ₚ normcase <$> common ∧
  common `sublist_of` left_list ∧ common' `sublist_of` right_list.
Proof.
  intros Nl Nr. rewrite !phase1_eq by done.
  intros [= <- <- <-] [= <- <- <-]. split; [done|]. split; [done|].
  split; [|split; apply sublist_filter].
  apply NoDup_Permutation.
  - eapply sublist_NoDup; [exact Nr|]. apply fmap_sublist, sublist_filter.
  - eapply sublist_NoDup; [exact Nl|]. apply fmap_sublist, sublist_filter.
  - intros k. rewrite !list_elem_of_fmap. split.
    + intros (y & -> & Hy).
      apply (list_elem_of_filter (λ y, normcase y ∈ normcase <$> left_list)) in Hy
        as [Hk Hy].
      apply list_elem_of_fmap in Hk as (x & Hxy & Hx).
      exists x. split; [done|].
      apply (list_elem_of_filter (λ x, normcase x ∈ normcase <$> right_list)).
      split; [|done]. rewrite <- Hxy. by apply list_elem_of_fmap_2.
    + intros (x & -> & Hx).
      apply (list_elem_of_filter (λ x, normcase x ∈ normcase <$> right_list)) in Hx
        as [Hk Hx].
      apply list_elem_of_fmap in Hk as (y & Hxy & Hy).
      exists y. split; [done|].
      apply (list_elem_of_filter (λ y, normcase y ∈ normcase <$> left_list)).
      split; [|done]. rewrite <- Hxy. by apply list_elem_of_fmap_2.
Qed.

Lemma phase1_swap_witness :
  phase1 nt_normcase ["README.TXT"; "b"]%string ["Readme.txt"; "c"]%string
    = Ok (["README.TXT"], ["b"], ["c"])%string ∧
  phase1 nt_normcase ["Readme.txt"; "c"]%string ["README.TXT"; "b"]%string
    = Ok (["Readme.txt"], ["c"], ["b"])%string ∧
  nt_normcase <$> ["Readme.txt"%string] ≡ₚ nt_normcase <$> ["README.TXT"%string].
Proof.
  assert (H1 : phase1 nt_normcase ["README.TXT"; "b"]%string ["Readme.txt"; "c"]%string
               = Ok (["README.TXT"], ["b"], ["c"])%string) by by vm_compute.
  assert (H2 : phase1 nt_normcase ["Readme.txt"; "c"]%string ["README.TXT"; "b"]%string
               = Ok (["Readme.txt"], ["c"], ["b"])%string) by by vm_compute.
  split; [exact H1|]. split; [exact H2|].
  refine (proj1 (proj2 (proj2 (phase1_swap nt_normcase _ _ _ _ _ _ _ _ _ _ H1 H2))));
    apply (bool_decide_unpack _); by vm_compute.
Defined.

(** ** How [phase2] files a name *)

Section Kinds.
Context (join : string → string → string) (fs : filesystem) (self : dircmp).

Lemma phase2_step_cases x :
  (both_directories join fs self x ∧
     phase2_step join fs self ([], [], []) x = ([x], [], [])) ∨
  (both_regular join fs self x ∧
     phase2_step join fs self ([], [], []) x = ([], [x], [])) ∨
  (¬ both_directories join fs self x ∧ ¬ both_regular join fs self x ∧
     phase2_step join fs self ([], [], []) x = ([], [], [x])).
Proof.
  unfold phase2_step, os_stat, both_directories, both_regular, regular,
    S_ISDIR, S_ISREG.
  destruct (fs !! join (left self) x) as [n1|] eqn:H1;
    [|right; right; repeat split; [intros (?&?&?&_)|intros (?&?&?&_)]; done].
  destruct (fs !! join (right self) x) as [n2|] eqn:H2;
    [|right; right; repeat split; [intros (?&?&_&?&_)|intros (?&?&_&?&_)]; done].
  assert (Hm : ∀ m, S_IFMT (S_IFMT m) = S_IFMT m).
  { intros m. unfold S_IFMT. rewrite <- Z.land_assoc. reflexivity. }
  rewrite !Hm.
  set (t1 := S_IFMT (st_mode (n_stat n1))). set (t2 := S_IFMT (st_mode (n_stat n2))).
  destruct (Z.eqb_spec t1 t2) as [E|E]; cbn [negb].
  - destruct (Z.eqb_spec t1 S_IFDIR) as [D|D].
    + left. split; [|done]. exists n1, n2. repeat split; subst t1 t2; congruence.
    + destruct (Z.eqb_spec t1 S_IFREG) as [R|R].
      * right; left. split; [|done]. exists n1, n2. repeat split; subst t1 t2; congruence.
      * right; right. repeat split.
        -- intros (m1 & m2 & [= <-] & _ & ? & _). by apply D.
        -- intros (m1 & m2 & [= <-] & _ & ? & _). by apply R.
  - right; right. repeat split.
    + intros (m1 & m2 & [= <-] & [= <-] & ? & ?). apply E. subst t1 t2. congruence.
    + intros (m1 & m2 & [= <-] & [= <-] & ? & ?). apply E. subst t1 t2. congruence.
Qed.

Lemma phase2_sublists common : bucket_sublists (phase2 join fs self common) common.
Proof.
  induction common as [|x common (I1 & I2 & I3)]; [by repeat split|].
  rewrite phase2_cons.
  destruct (phase2_step_cases x) as [[_ ->]|[[_ ->]|(_ & _ & ->)]];
    unfold bucket_sublists, bucket_app; cbn [fst snd app];
    repeat split; (by apply sublist_skip) || (by apply sublist_cons).
Qed.

Lemma phase2_elem common x :
  (x ∈ (phase2 join fs self common).1.1 ↔
     x ∈ common ∧ both_directories join fs self x) ∧
  (x ∈ (phase2 join fs self common).1.2 ↔
     x ∈ common ∧ both_regular join fs self x) ∧
  (x ∈ (phase2 join fs self common).2 ↔
     x ∈ common ∧ ¬ both_directories join fs self x ∧ ¬ both_regular join fs self x).
Proof.
  assert (Hex : ¬ (both_directories join fs self x ∧ both_regular join fs self x)).
  { intros [(n1 & n2 & H1 & _ & D & _) (m1 & m2 & H1' & _ & R & _)].
    unfold regular in R. rewrite H1 in H1'. injection H1' as <-.
    rewrite D in R. discriminate. }
  induction common as [|y common (I1 & I2 & I3)].
  - cbn. split; [|split]; (split; [by intros ?%elem_of_nil|by intros [?%elem_of_nil _]]).
  - rewrite phase2_cons. unfold bucket_app. cbn [fst snd].
    rewrite !elem_of_app, I1, I2, I3, !elem_of_cons.
    destruct (phase2_step_cases y) as [[Hy ->]|[[Hy ->]|(Hd & Hr & ->)]];
      cbn [fst snd]; rewrite ?list_elem_of_singleton.
    all: assert (Hn : x ∈ @nil string ↔ False) by (split; [apply elem_of_nil|done]).
    all: rewrite !Hn.
    all: split; [|split]; split.
    all: try (intros [->|[? ?]]; tauto).
    all: try (intros [[]|[? ?]]; tauto).
    all: try (intros [->|(? & ? & ?)]; tauto).
    all: try (intros [[]|(? & ? & ?)]; tauto).
    all: try (intros [[->|?] ?]; tauto).
    all: try (intros ([->|?] & ? & ?); tauto).
Qed.

(** X11: [phase2] files a common name under [common_dirs] exactly when
    both entries are directories, under [common_files] exactly when both
    are regular files, and under [common_funny] otherwise: when an entry
    cannot be stat'ed, when the two types differ, or when both are of
    another type. *)
Theorem phase2_classification common x :
  (x ∈ (phase2 join fs self common).1.1 ↔
     x ∈ common ∧ both_directories join fs self x) ∧
  (x ∈ (phase2 join fs self common).1.2 ↔
     x ∈ common ∧ both_regular join fs self x) ∧
  (x ∈ (phase2 join fs self common).2 ↔
     x ∈ common ∧ ¬ both_directories join fs self x ∧ ¬ both_regular join fs self x).
Proof. apply phase2_elem. Qed.
End Kinds.

(** ** The order of the attribute lists *)

Lemma in_order_sorted l : Sorted str_le l → in_order l.
Proof. intros H. split; [done|by apply list_sort_sorted]. Qed.

Lemma in_order_sublist l1 l2 : l1 `sublist_of` l2 → in_order l2 → in_order l1.
Proof. intros Hs [Hl _]. apply in_order_sorted. by eapply Sorted_str_sublist. Qed.

Lemma buckets_in_order_sublists r l :
  bucket_sublists r l → in_order l → buckets_in_order r.
Proof. intros (H1 & H2 & H3) Hl. repeat split; by eapply in_order_sublist. Qed.

Lemma list_sort_in_order l : in_order (list_sort l).
Proof. apply in_order_sorted, Sorted_merge_sort, _. Qed.

Lemma bucket_append_cases i x r :
  bucket_append ([], [], []) i x = Ok r →
  r = ([x], [], []) ∨ r = ([], [x], []) ∨ r = ([], [], [x]).
Proof. destruct i as [|[|[|i]]]; cbn; intros [= <-]; auto. Qed.

Lemma cmpfiles_sublists (join : string → string → string) fs a b sh common w r w' :
  cmpfiles join fs a b common sh w = (Ok r, w') → bucket_sublists r common.
Proof.
  revert w r w'. induction common as [|x common IH]; intros w r w'.
  - intros [= <- _]. by repeat split.
  - rewrite cmpfiles_cons.
    destruct (_cmp fs (join a x) (join b x) sh w) as [[i|e] w1]; [|done].
    destruct (bucket_append ([], [], []) i x) as [r1|e] eqn:Hr1; [|done].
    destruct (cmpfiles join fs a b common sh w1) as [[r2|e] w2] eqn:Hc; [|done].
    intros [= <- _]. destruct (IH _ _ _ Hc) as (I1 & I2 & I3).
    destruct (bucket_append_cases _ _ _ Hr1) as [->|[->| ->]];
      unfold bucket_sublists, bucket_app; cbn [fst snd app];
      repeat split; (by apply sublist_skip) || (by apply sublist_cons).
Qed.

Section Order.
Context (normcase : string → string) (join : string → string → string).
Context (fs : filesystem).

(** X12: every attribute list is in ascending order: the two listings
    because [phase0] sorts them, and, when no listing holds two names that
    normalise alike, the lists of [phase1], [phase2] and [phase3] because
    each keeps the order of the list it is taken from.  The [sort] calls of
    [report] and [report_mod] therefore change nothing. *)
Theorem attribute_lists_are_in_order self left_list right_list :
  phase0 fs self = Ok (left_list, right_list) →
  in_order left_list ∧ in_order right_list ∧
  (NoDup (normcase <$> left_list) → NoDup (normcase <$> right_list) →
   (∀ r, attr_names normcase fs self = Ok r → buckets_in_order r) ∧
   (∀ r, attr_kinds normcase join fs self = Ok r → buckets_in_order r) ∧
   (∀ w r w', attr_files normcase join fs self w = (Ok r, w') → buckets_in_order r)).
Proof.
  intros H0.
  assert (Hl : in_order left_list ∧ in_order right_list).
  { unfold phase0 in H0.
    destruct (os_listdir fs (left self)) as [l|]; [|done].
    destruct (os_listdir fs (right self)) as [r|]; [|done].
    injection H0 as <- <-. split; apply list_sort_in_order. }
  destruct Hl as [Hl Hr]. split; [done|]. split; [done|]. intros Nl Nr.
  assert (H1 : ∀ r, attr_names normcase fs self = Ok r → buckets_in_order r).
  { intros r. unfold attr_names. rewrite H0, phase1_eq by done. intros [= <-].
    repeat split; cbn [fst snd];
      (eapply in_order_sublist; [apply sublist_filter|done]). }
  assert (H2 : ∀ r, attr_kinds normcase join fs self = Ok r → buckets_in_order r).
  { intros r. unfold attr_kinds.
    destruct (attr_names normcase fs self) as [[[c lo] ro]|] eqn:Hn; [|done].
    intros [= <-]. eapply buckets_in_order_sublists; [apply phase2_sublists|].
    by destruct (H1 _ eq_refl) as (? & _). }
  split; [exact H1|]. split; [exact H2|].
  intros w r w'. unfold attr_files, bind, lift, phase3.
  destruct (attr_kinds normcase join fs self) as [k|] eqn:Hk; [|done].
  intros Hc. eapply buckets_in_order_sublists; [by eapply cmpfiles_sublists|].
  by destruct (H2 _ eq_refl) as (_ & ? & _).
Qed.
End Order.

Lemma attribute_lists_are_in_order_witness :
  in_order ["a.txt"; "sub"]%string ∧ in_order ["a.txt"; "b.txt"; "sub"]%string.
Proof.
  destruct (attribute_lists_are_in_order id posix_join fs_tree
              (dircmp_init "L" "R" None None)
              ["a.txt"; "sub"]%string ["a.txt"; "b.txt"; "sub"]%string) as (H1 & H2 & _).
  - by vm_compute.
  - by split.
Defined.

(** ** What [phase3] goes by *)

Section BySize.
Context (normcase : string → string) (join : string → string → string).
Context (fs : filesystem).

Lemma cmpfiles_shallow_regular self common w r w' :
  (∀ p n, fs !! p = Some n → 0 <= st_size (n_stat n)) →
  (∀ x, x ∈ common → both_regular join fs self x) →
  cmpfiles join fs (left self) (right self) common true w = (Ok r, w') →
  r = (filter (λ x, similar_entry join fs (left self) (right self) x) common,
       filter (λ x, ¬ similar_entry join fs (left self) (right self) x) common,
       []).
Proof.
  intros Hwf. revert r w'. induction common as [|x common IH]; intros r w' Hreg.
  - by intros [= <- _].
  - rewrite cmpfiles_cons.
    destruct (Hreg x) as (n1 & n2 & H1 & H2 & R1 & R2); [left|].
    rewrite _cmp_eq, (cmp_shallow_eq _ _ _ n1 n2) by done.
    destruct (Z.eqb_spec (st_size (n_stat n2)) 0) as [Hz|Hz]; [done|].
    pose proof (Hwf _ _ H1). pose proof (Hwf _ _ H2).
    rewrite _is_similar_pos by lia.
    assert (Hs : similar_entry join fs (left self) (right self) x
                 = similar_sizes (st_size (n_stat n1)) (st_size (n_stat n2)))
      by (unfold similar_entry; by rewrite H1, H2).
    destruct (similar_sizes _ _); cbv beta iota; cbn [bucket_append];
      (destruct (cmpfiles join fs (left self) (right self) common true w)
         as [[r2|e] w2] eqn:Hc; [|done]);
      assert (Hr2 := IH r2 w2
                (λ y Hy, Hreg y (proj2 (elem_of_cons _ _ _) (or_intror Hy))) eq_refl);
      rewrite Hr2; intros [= <- _]; unfold bucket_app; cbn [fst snd app].
    + rewrite filter_cons_True by by rewrite Hs.
      rewrite filter_cons_False by (rewrite Hs; intros H'; by apply H'). reflexivity.
    + rewrite filter_cons_False by (rewrite Hs; exact id).
      rewrite filter_cons_True by (rewrite Hs; exact id). reflexivity.
Qed.

(** X13: what [dircmp] reports about common files goes by size alone.
    When [phase3] returns, [same_files] holds the common files whose two
    sizes pass the test of [_is_similar], [diff_files] the others, in the
    order of [common_files], and [funny_files] is empty. *)
Theorem phase3_goes_by_size self common_dirs common_files common_funny w r w' :
  (∀ p n, fs !! p = Some n → 0 <= st_size (n_stat n)) →
  attr_kinds normcase join fs self = Ok (common_dirs, common_files, common_funny) →
  attr_files normcase join fs self w = (Ok r, w') →
  r = (filter (λ x, similar_entry join fs (left self) (right self) x) common_files,
       filter (λ x, ¬ similar_entry join fs (left self) (right self) x) common_files,
       []).
Proof.
  intros Hwf Hk. unfold attr_files, bind, lift, phase3. rewrite Hk. cbn [fst snd].
  apply cmpfiles_shallow_regular; [done|].
  intros x Hx. unfold attr_kinds in Hk.
  destruct (attr_names normcase fs self) as [[[c lo] ro]|]; [|done].
  injection Hk as Hk.
  pose proof (phase2_elem join fs self c x) as (_ & Hf & _).
  rewrite Hk in Hf. cbn [fst snd] in Hf. by apply Hf in Hx as [_ Hx].
Qed.
End BySize.

Lemma phase3_goes_by_size_witness :
  (attr_files id posix_join fs_tree (dircmp_init "L" "R" None None) world0).1
    = Ok (filter (λ x, similar_entry posix_join fs_tree "L" "R" x) ["a.txt"%string],
          filter (λ x, ¬ similar_entry posix_join fs_tree "L" "R" x) ["a.txt"%string],
          []).
Proof.
  destruct (attr_files id posix_join fs_tree (dircmp_init "L" "R" None None) world0)
    as [[r|e] w'] eqn:Hc; [|by vm_compute in Hc].
  cbn [fst]. f_equal.
  apply (phase3_goes_by_size id posix_join fs_tree (dircmp_init "L" "R" None None)
           ["sub"%string] ["a.txt"%string] [] world0 r w'); [|by vm_compute|exact Hc].
  assert (Hwf : map_Forall (λ _ n, 0 <= st_size (n_stat n)) fs_tree)
    by (apply (bool_decide_unpack _); by vm_compute).
  intros p n Hn. exact (Hwf p n Hn).
Defined.
(** ** Reports *)

Lemma drop_last_cons c d s :
  drop_last (String c (String d s)) = String c (drop_last (String d s)).
Proof. reflexivity. Qed.

Lemma drop_last_nl x : drop_last (x +:+ nl) = x.
Proof.
  induction x as [|c x IH]; [reflexivity|].
  destruct x as [|d x]; [reflexivity|].
  change (drop_last (String d (x +:+ nl)) = String d x) in IH.
  change (drop_last (String c (String d (x +:+ nl))) = String c (String d x)).
  by rewrite drop_last_cons, IH.
Qed.

Lemma item_of_item x : item_of (tab +:+ x +:+ nl) = Some x.
Proof.
  change (tab +:+ x +:+ nl) with (String (Ascii.ascii_of_nat 9) (x +:+ nl)).
  unfold item_of. rewrite decide_True by done. by rewrite drop_last_nl.
Qed.

Lemma item_of_nl s : item_of (nl +:+ s) = None.
Proof. reflexivity. Qed.

Lemma to_file_items l : omap item_of (to_file l) = l.
Proof.
  unfold to_file. rewrite omap_app. cbn [omap list_omap].
  rewrite item_of_nl, app_nil_r.
  induction l as [|x l IH]; [reflexivity|].
  cbn [fmap list_fmap omap list_omap]. by rewrite item_of_item, IH.
Qed.

Lemma report_section_items s l :
  omap item_of (report_section (nl +:+ s) l) ≡ₚ l.
Proof.
  destruct l as [|x l]; [reflexivity|].
  unfold report_section. cbn [omap list_omap].
  rewrite item_of_nl. fold (omap item_of (to_file (list_sort (x :: l)))).
  by rewrite to_file_items, list_sort_Permutation.
Qed.

Section ReportProperties.
Context (normcase : string → string) (join : string → string → string).
Context (fs : filesystem).

Lemma attr_kinds_eq self common left_only right_only :
  attr_names normcase fs self = Ok (common, left_only, right_only) →
  attr_kinds normcase join fs self = Ok (phase2 join fs self common).
Proof. intros H. unfold attr_kinds. by rewrite H. Qed.

Lemma attr_files_eq self k w :
  attr_kinds normcase join fs self = Ok k →
  attr_files normcase join fs self w
  = cmpfiles join fs (left self) (right self) k.1.2 true w.
Proof. intros H. unfold attr_files, bind, lift, phase3. by rewrite H. Qed.

Lemma report_items_cons a b rest : report_items (a :: b :: rest) = omap item_of rest.
Proof. reflexivity. Qed.

Lemma report_items_head self rest :
  report_items (report_head self ++ rest) = omap item_of rest.
Proof. reflexivity. Qed.

(** X14: a report that [report_mod] completes lists every name of
    [common], [left_only] and [right_only] exactly once as an item: the
    seven sections together hold the names of the three lists, with
    their multiplicities. *)
Theorem report_lists_every_name_once self w out w' common left_only right_only :
  attr_names normcase fs self = Ok (common, left_only, right_only) →
  report_mod normcase join fs self w = (Ok tt, out, w') →
  report_items out ≡ₚ common ++ left_only ++ right_only.
Proof.
  intros Hn. pose proof (attr_kinds_eq _ _ _ _ Hn) as Hk.
  pose proof (phase2_partition join fs self common) as Hp.
  destruct (phase2 join fs self common) as [[cd cf] cfu].
  unfold report_mod. rewrite Hn, Hk, (attr_files_eq _ _ _ Hk). cbn [fst snd].
  pose proof (cmpfiles_partition join fs (left self) (right self) true cf w) as Hc.
  destruct (cmpfiles join fs (left self) (right self) cf true w)
    as [[[[same diff] funny]|e] w1]; [|done].
  intros [= <- _]. rewrite report_items_cons, <- !app_assoc.
  rewrite !omap_app, !report_section_items.
  unfold bucket_all in Hp, Hc. cbn [fst snd] in Hp, Hc.
  assert (Hall : same ++ diff ++ funny ++ cd ++ cfu ≡ₚ common).
  { rewrite <- Hp, <- Hc, <- !app_assoc.
    rewrite !(app_assoc same), !(app_assoc (same ++ diff)).
    apply Permutation_app_swap_app. }
  rewrite Hall, (app_assoc left_only). apply Permutation_app_comm.
Qed.

(** X15: a common pair of regular files whose right-hand one is empty
    makes [report_mod] stop with [ZeroDivisionError] after the two
    sections of the one-sided names: no common name is reported, the
    process state is unchanged, and [report_full_closure] stops with
    the same exception and the same output, without entering any
    subdirectory. *)
Theorem report_stops_at_empty_file self w common left_only right_only x :
  attr_names normcase fs self = Ok (common, left_only, right_only) →
  x ∈ common →
  zero_divisor_pair join fs (left self) (right self) x →
  ∃ out,
    report_mod normcase join fs self w = (Raise ZeroDivisionError, out, w) ∧
    report_items out ≡ₚ left_only ++ right_only ∧
    ∀ fuel, report_full_closure normcase join fs (S fuel) self w
            = Some (Raise ZeroDivisionError, out, w).
Proof.
  intros Hn Hx Hz. pose proof (attr_kinds_eq _ _ _ _ Hn) as Hk.
  assert (Hf : x ∈ (phase2 join fs self common).1.2).
  { apply phase2_elem. split; [done|].
    destruct Hz as (n1 & n2 & H1 & H2 & R1 & R2 & _). by exists n1, n2. }
  assert (Hr : report_mod normcase join fs self w
               = (Raise ZeroDivisionError,
                  report_head self
                    ++ report_section (nl +:+ "Only in " +:+ left self +:+ ":" +:+ nl)
                         left_only
                    ++ report_section (nl +:+ "Only in " +:+ right self +:+ ":" +:+ nl)
                         right_only, w)).
  { unfold report_mod. rewrite Hn, (attr_files_eq _ _ _ Hk).
    by rewrite (cmpfiles_zero_divisor join fs _ _ _ x). }
  eexists. split; [exact Hr|]. split.
  - by rewrite report_items_head, omap_app, !report_section_items.
  - intros fuel. cbn [report_full_closure]. by rewrite Hr.
Qed.

(** X16: when one of the two directories cannot be listed, [report_mod]
    and [report_full_closure] raise [OSError] after the two opening writes:
    the report names the two directories and nothing else. *)
Theorem report_of_unlistable_directory self w :
  os_listdir fs (left self) = Raise OSError ∨
  os_listdir fs (right self) = Raise OSError →
  report_mod normcase join fs self w = (Raise OSError, report_head self, w) ∧
  ∀ fuel, report_full_closure normcase join fs (S fuel) self w
          = Some (Raise OSError, report_head self, w).
Proof.
  intros H.
  assert (Hn : attr_names normcase fs self = Raise OSError).
  { unfold attr_names, phase0. destruct H as [->| ->]; [done|].
    destruct (os_listdir fs (left self)) as [l|e] eqn:Hl; [done|].
    unfold os_listdir in Hl. destruct (fs !! left self ≫= n_list); [done|].
    by injection Hl as <-. }
  assert (Hr : report_mod normcase join fs self w = (Raise OSError, report_head self, w))
    by (unfold report_mod; by rewrite Hn).
  split; [done|]. intros fuel. cbn [report_full_closure]. by rewrite Hr.
Qed.
End ReportProperties.

Lemma report_lists_every_name_once_witness :
  report_items (report_mod id posix_join fs_tree (dircmp_init "L" "R" None None) world0).1.2
    ≡ₚ ["sub"; "a.txt"; "b.txt"]%string.
Proof.
  destruct (report_mod id posix_join fs_tree (dircmp_init "L" "R" None None) world0)
    as [[[[]|e] out] w'] eqn:Hr; [|by vm_compute in Hr].
  cbn [fst snd].
  rewrite (report_lists_every_name_once id posix_join fs_tree
             (dircmp_init "L" "R" None None) world0 out w'
             ["a.txt"; "sub"]%string [] ["b.txt"]%string);
    [|by vm_compute|exact Hr].
  apply (Permutation_app_swap_app ["a.txt"%string] ["sub"%string] ["b.txt"%string]).
Defined.

Lemma report_stops_at_empty_file_witness :
  ∃ out,
    report_mod id posix_join fs_odd (dircmp_init "L" "R" None None) world0
      = (Raise ZeroDivisionError, out, world0) ∧
    report_items out ≡ₚ [] ++ [] ∧
    ∀ fuel, report_full_closure id posix_join fs_odd (S fuel)
              (dircmp_init "L" "R" None None) world0
            = Some (Raise ZeroDivisionError, out, world0).
Proof.
  apply (report_stops_at_empty_file id posix_join fs_odd
           (dircmp_init "L" "R" None None) world0 ["e"; "g"; "ghost"]%string [] []
           "e"%string).
  - by vm_compute.
  - apply elem_of_cons. by left.
  - eexists _, _. split; [by vm_compute|]. split; [by vm_compute|].
    by vm_compute.
Defined.

Lemma report_of_unlistable_directory_witness :
  report_mod id posix_join fs_tree (dircmp_init "L" "nowhere" None None) world0
    = (Raise OSError, report_head (dircmp_init "L" "nowhere" None None), world0) ∧
  ∀ fuel, report_full_closure id posix_join fs_tree (S fuel)
            (dircmp_init "L" "nowhere" None None) world0
          = Some (Raise OSError, report_head (dircmp_init "L" "nowhere" None None), world0).
Proof.
  apply (report_of_unlistable_directory id posix_join fs_tree
           (dircmp_init "L" "nowhere" None None) world0).
  right. by vm_compute.
Defined.

(** ** The walk over the common subdirectories *)

Lemma subdirs_setitem_values d k v sd :
  sd ∈ (subdirs_setitem d k v).*2 → sd = v ∨ sd ∈ d.*2.
Proof.
  induction d as [|[k' v'] d IH]; cbn [subdirs_setitem].
  - cbn. intros [->|[]%elem_of_nil]%elem_of_cons. by left.
  - destruct (decide (k' = k)) as [->|Hne]; cbn [fmap list_fmap snd];
      rewrite !elem_of_cons.
    + intros [->|H]; [by left|right; by right].
    + intros [->|H]; [right; by left|].
      destruct (IH H) as [->|H']; [by left|right; by right].
Qed.

Lemma closure_loop_returns
    (rec : dircmp → world → option (result unit * list string * world)) sds out w :
  (∀ sd w, sd ∈ sds → is_Some (rec sd w)) →
  is_Some (closure_loop rec sds out w).
Proof.
  revert out w. induction sds as [|sd sds IH]; intros out w Hrec; [by eexists|].
  cbn [closure_loop].
  destruct (Hrec sd w) as [[[[[]|e] o] w1] ->]; [by left| |by eexists].
  apply IH. intros sd' w' H. apply Hrec. by right.
Qed.

Lemma closure_loop_mono
    (rec rec' : dircmp → world → option (result unit * list string * world))
    sds out w r :
  (∀ sd w r, rec sd w = Some r → rec' sd w = Some r) →
  closure_loop rec sds out w = Some r → closure_loop rec' sds out w = Some r.
Proof.
  intros Hrec. revert out w. induction sds as [|sd sds IH]; intros out w; [done|].
  cbn [closure_loop].
  destruct (rec sd w) as [[[[[]|e] o] w1]|] eqn:Hr; [| |done];
    rewrite (Hrec _ _ _ Hr); [apply IH|done].
Qed.

Section Walk.
Context (normcase : string → string) (join : string → string → string).
Context (fs : filesystem).

Lemma phase4_values self common_dirs sd :
  sd ∈ (phase4 join self common_dirs).*2 →
  ∃ x, x ∈ common_dirs ∧
       sd = dircmp_init (join (left self) x) (join (right self) x)
              (Some (ignore self)) (Some (hide self)).
Proof.
  unfold phase4.
  assert (H : ∀ acc,
    sd ∈ (foldl (λ subdirs x,
                   subdirs_setitem subdirs x
                     (dircmp_init (join (left self) x) (join (right self) x)
                        (Some (ignore self)) (Some (hide self))))
                acc common_dirs).*2 →
    sd ∈ acc.*2 ∨
    ∃ x, x ∈ common_dirs ∧
         sd = dircmp_init (join (left self) x) (join (right self) x)
                (Some (ignore self)) (Some (hide self))).
  { induction common_dirs as [|x l IH]; intros acc; cbn [foldl]; [by left|].
    intros [[->|H]%subdirs_setitem_values|(y & Hy & ->)]%IH.
    - right. exists x. split; [by left|done].
    - by left.
    - right. exists y. split; [by right|done]. }
  intros [[]%elem_of_nil|Hsd]%H. exact Hsd.
Qed.

Lemma depth_bound_child self x n :
  (∀ a y, String.length a < String.length (join a y))%nat →
  fs !! join (left self) x = Some n →
  (depth_bound fs (dircmp_init (join (left self) x) (join (right self) x)
                     (Some (ignore self)) (Some (hide self)))
   < depth_bound fs self)%nat.
Proof.
  intros Hjoin Hx. unfold depth_bound. cbn [left dircmp_init].
  pose proof (Hjoin (left self) x) as Hlt.
  apply map_subset_size. split.
  - apply map_filter_strong_subseteq_ext. intros i y [HP Hi]. split; [|done].
    cbn [fst] in *. lia.
  - intros Hsub.
    rewrite map_filter_strong_subseteq_ext in Hsub.
    destruct (Hsub (join (left self) x) n) as [HP _]; [by split|].
    cbn [fst] in HP. lia.
Qed.

Lemma report_full_closure_mono fuel self w r :
  report_full_closure normcase join fs fuel self w = Some r →
  report_full_closure normcase join fs (S fuel) self w = Some r.
Proof.
  revert self w r. induction fuel as [|n IH]; intros self w r; [done|].
  remember (S n) as m eqn:Hm. cbn [report_full_closure]. rewrite Hm at 1.
  cbn [report_full_closure].
  destruct (report_mod normcase join fs self w) as [[[[]|e] out] w1]; [|done].
  destruct (attr_kinds normcase join fs self) as [[[cd cf] cfu]|e]; [|done].
  apply closure_loop_mono. subst m. exact IH.
Qed.

Lemma report_full_closure_mono_le fuel fuel' self w r :
  (fuel ≤ fuel')%nat →
  report_full_closure normcase join fs fuel self w = Some r →
  report_full_closure normcase join fs fuel' self w = Some r.
Proof.
  induction 1 as [|m _ IH]; [done|].
  intros H. by apply report_full_closure_mono, IH.
Qed.

Lemma report_full_closure_is_Some fuel self w :
  (∀ a y, String.length a < String.length (join a y))%nat →
  (depth_bound fs self < fuel)%nat →
  is_Some (report_full_closure normcase join fs fuel self w).
Proof.
  intros Hjoin. revert self w. induction fuel as [|n IH]; intros self w Hd; [lia|].
  cbn [report_full_closure].
  destruct (report_mod normcase join fs self w) as [[[[]|e] out] w1]; [|by eexists].
  destruct (attr_kinds normcase join fs self) as [[[cd cf] cfu]|e] eqn:Hk;
    [|by eexists].
  apply closure_loop_returns. intros sd w2 (x & Hx & ->)%phase4_values.
  apply IH. rewrite list_sort_Permutation in Hx.
  unfold attr_kinds in Hk.
  destruct (attr_names normcase fs self) as [[[c lo] ro]|]; [|done].
  injection Hk as Hk.
  pose proof (phase2_elem join fs self c x) as (Hdir & _).
  rewrite Hk in Hdir. cbn [fst] in Hdir.
  apply Hdir in Hx as (_ & n1 & n2 & H1 & _).
  pose proof (depth_bound_child self x n1 Hjoin H1). lia.
Qed.

(** X17: [report_full_closure] returns on every file system, when joining
    a name to a path makes the path longer: the depth of its recursion is
    at most the number of paths longer than the left directory's, and the
    outcome, the text written and the final process state are the same
    for every larger bound. *)
Theorem report_full_closure_returns self w :
  (∀ a y, String.length a < String.length (join a y))%nat →
  ∃ r, ∀ fuel, (depth_bound fs self < fuel)%nat →
               report_full_closure normcase join fs fuel self w = Some r.
Proof.
  intros Hjoin.
  destruct (report_full_closure_is_Some (S (depth_bound fs self)) self w Hjoin)
    as [r Hr]; [lia|].
  exists r. intros fuel Hf.
  eapply report_full_closure_mono_le; [|exact Hr]. lia.
Qed.
End Walk.

Lemma length_append s1 s2 :
  String.length (s1 +:+ s2) = (String.length s1 + String.length s2)%nat.
Proof.
  induction s1 as [|c s1 IH]; [reflexivity|].
  change (S (String.length (s1 +:+ s2)) = S (String.length s1 + String.length s2)).
  by rewrite IH.
Qed.

Lemma posix_join_longer a y : (String.length a < String.length (posix_join a y))%nat.
Proof. unfold posix_join. rewrite !length_append. cbn [String.length]. lia. Qed.

Lemma report_full_closure_returns_witness :
  ∃ r, ∀ fuel, (depth_bound fs_tree (dircmp_init "L" "R" None None) < fuel)%nat →
               report_full_closure id posix_join fs_tree fuel
                 (dircmp_init "L" "R" None None) world0 = Some r.
Proof.
  apply (report_full_closure_returns id posix_join fs_tree
           (dircmp_init "L" "R" None None) world0).
  exact posix_join_longer.
Defined.

Lemma closure_loop_prefix
    (rec : dircmp → world → option (result unit * list string * world))
    sds out w r out' w' :
  closure_loop rec sds out w = Some (r, out', w') → out `prefix_of` out'.
Proof.
  revert out w. induction sds as [|sd sds IH]; intros out w; cbn [closure_loop].
  - by intros [= _ <- _].
  - destruct (rec sd w) as [[[[[]|e] o] w1]|]; [| |done].
    + intros H%IH. etrans; [|exact H]. by apply prefix_app_r.
    + intros [= _ <- _]. by apply prefix_app_r.
Qed.

(** X18: the text that [report_full_closure] writes begins with the report
    of the directory pair itself, the reports of the subdirectories follow
    it; and when [report_mod] raises, or the pair has no common
    subdirectory, [report_full_closure] does what [report_mod] does and
    nothing more. *)
Theorem closure_extends_report (normcase : string → string)
    (join : string → string → string) fs self w fuel r out w' :
  report_full_closure normcase join fs fuel self w = Some (r, out, w') →
  (report_mod normcase join fs self w).1.2 `prefix_of` out ∧
  ((report_mod normcase join fs self w).1.1 ≠ Ok tt ∨
   (∃ cf cfu, attr_kinds normcase join fs self = Ok ([], cf, cfu)) →
   report_mod normcase join fs self w = (r, out, w')).
Proof.
  destruct fuel as [|n]; [done|]. cbn [report_full_closure].
  destruct (report_mod normcase join fs self w) as [[[[]|e] out0] w0].
  - destruct (attr_kinds normcase join fs self) as [[[cd cf] cfu]|e].
    + intros H. split; [by eapply closure_loop_prefix|].
      cbn [fst]. intros [Hne|(cf' & cfu' & Hk)].
      * by destruct Hne.
      * injection Hk as -> _ _.
        change (list_sort []) with (@nil string) in H.
        cbn in H. congruence.
    + intros [= <- <- <-]. split; [done|].
      cbn [fst]. intros [Hne|(? & ? & [=])]. by destruct Hne.
  - intros [= <- <- <-]. split; [done|]. by intros _.
Qed.

Lemma closure_extends_report_witness :
  (report_mod id posix_join fs_tree (dircmp_init "L" "R" None None) world0).1.2
    `prefix_of`
  (default (Ok tt, [], world0)
     (report_full_closure id posix_join fs_tree 3
        (dircmp_init "L" "R" None None) world0)).1.2.
Proof.
  destruct (report_full_closure id posix_join fs_tree 3
              (dircmp_init "L" "R" None None) world0) as [[[r out] w']|] eqn:H;
    [|by vm_compute in H].
  exact (proj1 (closure_extends_report id posix_join fs_tree
                  (dircmp_init "L" "R" None None) world0 3 r out w' H)).
Defined.

(** ** Attributes computed on demand *)

Ltac decide_name :=
  match goal with
  | |- context [@decide (?a = ?b) ?d] =>
      first [ rewrite (@decide_True _ (a = b) d) by reflexivity
            | rewrite (@decide_False _ (a = b) d) by discriminate ]
  end.

Lemma stored_set_list o a l b :
  stored (set_list o a l) b
  = if decide (b = "subdirs") then stored o b
    else if decide (a = b) then Some (VList l) else stored o b.
Proof.
  unfold stored, set_list. cbn [lists subdirs].
  destruct (decide (b = "subdirs")); [done|].
  rewrite lookup_insert. by destruct (decide (a = b)).
Qed.

Lemma stored_set_subdirs o d b :
  stored (set_subdirs o d) b
  = if decide (b = "subdirs") then Some (VSubdirs d) else stored o b.
Proof. unfold stored, set_subdirs. cbn [lists subdirs]. by destruct (decide _). Qed.

Lemma stored_sort_list_ne o a b : a ≠ b → stored (sort_list o a) b = stored o b.
Proof.
  intros Hne. unfold sort_list. destruct (lists o !! a); [|done].
  rewrite stored_set_list. destruct (decide (b = "subdirs")); [done|].
  by rewrite decide_False.
Qed.

Lemma stored_sort_list_eq o a l :
  a ≠ "subdirs" → stored o a = Some (VList l) →
  stored (sort_list o a) a = Some (VList (list_sort l)).
Proof.
  intros Ha. unfold stored at 1. rewrite decide_False by done.
  intros H. unfold sort_list. destruct (lists o !! a) as [l'|]; [|done].
  injection H as ->. by rewrite stored_set_list, decide_False, decide_True.
Qed.

Lemma args_sort_list o a : args (sort_list o a) = args o.
Proof. unfold sort_list. by destruct (lists o !! a). Qed.

Lemma stored_fresh self a : stored (fresh self) a = None.
Proof. unfold stored, fresh. cbn. by destruct (decide _). Qed.

Lemma same_but_refl o attrs : same_but o o attrs.
Proof. by split. Qed.

Lemma same_but_trans o o' o'' attrs :
  same_but o o' attrs → same_but o' o'' attrs → same_but o o'' attrs.
Proof.
  intros [H1 H2] [H3 H4]. split; [congruence|].
  intros a Ha. by rewrite H4, H2.
Qed.

Lemma same_but_weaken o o' attrs attrs' :
  Forall (λ a, a ∈ attrs') attrs → same_but o o' attrs → same_but o o' attrs'.
Proof.
  intros Hs [H1 H2]. split; [done|]. intros a Ha. apply H2.
  intros Hin. apply Ha. by apply (proj1 (Forall_forall _ _) Hs).
Qed.

Lemma same_but_set_list o o' a l attrs :
  a ∈ attrs → same_but o o' attrs → same_but o (set_list o' a l) attrs.
Proof.
  intros Ha [H1 H2]. split; [done|]. intros b Hb.
  rewrite stored_set_list. destruct (decide (b = "subdirs")); [by apply H2|].
  rewrite decide_False by (by intros ->). by apply H2.
Qed.

Lemma same_but_sort_list o o' a attrs :
  a ∈ attrs → same_but o o' attrs → same_but o (sort_list o' a) attrs.
Proof.
  intros Ha [H1 H2]. split; [by rewrite args_sort_list|]. intros b Hb.
  rewrite stored_sort_list_ne by (by intros ->). by apply H2.
Qed.

Lemma same_but_set_subdirs o o' d attrs :
  "subdirs" ∈ attrs → same_but o o' attrs → same_but o (set_subdirs o' d) attrs.
Proof.
  intros Ha [H1 H2]. split; [done|]. intros b Hb.
  rewrite stored_set_subdirs, decide_False by (by intros ->). by apply H2.
Qed.

Lemma getattr_with_stored methodmap attr o w v :
  stored o attr = Some v → getattr_with methodmap attr o w = (Return v, o, w).
Proof. intros H. unfold getattr_with. by rewrite H. Qed.

Lemma getattr_with_unset methodmap attr o w :
  stored o attr = None →
  getattr_with methodmap attr o w = getattr_hook methodmap attr o w.
Proof. intros H. unfold getattr_with. by rewrite H. Qed.

Ltac same_but_tac :=
  repeat first [ apply same_but_set_list; [compute_done|]
               | apply same_but_sort_list; [compute_done|]
               | apply same_but_set_subdirs; [compute_done|] ];
  try apply same_but_refl.

Ltac stored_tac :=
  repeat first [ rewrite stored_set_list
               | rewrite stored_set_subdirs
               | rewrite stored_sort_list_ne by discriminate
               | decide_name ].

Section AttrSpecs.
Context (normcase : string → string) (join : string → string → string).
Context (fs : filesystem).

Lemma phase0_spec o w :
  ∃ o', same_but o o' ["left_list"; "right_list"]%string ∧
    match phase0 fs (args o) with
    | Ok (left_list, right_list) =>
        method_phase0 fs o w = (Return tt, o', w) ∧
        stored o' "left_list" = Some (VList left_list) ∧
        stored o' "right_list" = Some (VList right_list)
    | Raise e => method_phase0 fs o w = (Raised (Error e), o', w)
    end.
Proof.
  unfold method_phase0, phase0.
  destruct (os_listdir fs (left (args o))) as [l|e];
    [|exists o; split; [apply same_but_refl|done]].
  cbn [args set_list].
  destruct (os_listdir fs (right (args o))) as [r|e].
  - eexists. split; [|split; [reflexivity|split]].
    + same_but_tac.
    + rewrite stored_sort_list_ne by discriminate.
      apply stored_sort_list_eq; [discriminate|]. by stored_tac.
    + apply stored_sort_list_eq; [discriminate|]. by stored_tac.
  - eexists. split; [|reflexivity]. same_but_tac.
Qed.

Lemma phase1_spec o w :
  stored o "left_list" = None →
  ∃ o', same_but o o' ["left_list"; "right_list"; "common"; "left_only";
                       "right_only"]%string ∧
    match attr_names normcase fs (args o) with
    | Ok n =>
        method_phase1 normcase fs o w = (Return tt, o', w) ∧
        stored o' "common" = Some (VList n.1.1) ∧
        stored o' "left_only" = Some (VList n.1.2) ∧
        stored o' "right_only" = Some (VList n.2)
    | Raise e =>
        method_phase1 normcase fs o w = (Raised (Error e), o', w) ∧
        same_but o o' ["left_list"; "right_list"]%string
    end.
Proof.
  intros Hl. unfold method_phase1, attr_names.
  rewrite getattr_with_unset by done. unfold getattr_hook.
  change (methodmap_get (methodmap0 fs) "left_list") with (Some (method_phase0 fs)).
  destruct (phase0_spec o w) as (o1 & Hsb & H0).
  destruct (phase0 fs (args o)) as [[ll rl]|e].
  - destruct H0 as (-> & Hll & Hrl). rewrite Hll.
    rewrite (getattr_with_stored _ "right_list" o1 w (VList rl)) by done.
    cbn [as_list].
    destruct (phase1 normcase ll rl) as [[[c lo] ro]|e].
    + eexists. split; [|split; [reflexivity|]].
      * same_but_tac. eapply same_but_weaken; [|exact Hsb]. compute_done.
      * cbn [fst snd]. split; [|split]; by stored_tac.
    + exists o1. split; [|done].
      eapply same_but_weaken; [|exact Hsb]. compute_done.
  - rewrite H0. exists o1. split; [|done].
    eapply same_but_weaken; [|exact Hsb]. compute_done.
Qed.

Lemma phase2_spec o w :
  stored o "left_list" = None → stored o "common" = None →
  ∃ o', same_but o o' ["left_list"; "right_list"; "common"; "left_only";
                       "right_only"; "common_dirs"; "common_files";
                       "common_funny"]%string ∧
    match attr_kinds normcase join fs (args o) with
    | Ok k =>
        method_phase2 normcase join fs o w = (Return tt, o', w) ∧
        stored o' "common_dirs" = Some (VList k.1.1) ∧
        stored o' "common_files" = Some (VList k.1.2) ∧
        stored o' "common_funny" = Some (VList k.2)
    | Raise e =>
        method_phase2 normcase join fs o w = (Raised (Error e), o', w) ∧
        same_but o o' ["left_list"; "right_list"; "common_dirs"; "common_files";
                       "common_funny"]%string ∧
        stored o' "common_dirs" = Some (VList []) ∧
        stored o' "common_files" = Some (VList []) ∧
        stored o' "common_funny" = Some (VList [])
    end.
Proof.
  intros Hl Hc. unfold method_phase2, attr_kinds.
  set (o0 := set_list (set_list (set_list o "common_dirs" []) "common_files" [])
               "common_funny" []).
  assert (Hl0 : stored o0 "left_list" = None) by (subst o0; by stored_tac).
  assert (Hc0 : stored o0 "common" = None) by (subst o0; by stored_tac).
  assert (Hsb0 : same_but o o0 ["common_dirs"; "common_files"; "common_funny"]%string)
    by (subst o0; same_but_tac).
  rewrite getattr_with_unset by done. unfold getattr_hook.
  change (methodmap_get (methodmap1 normcase fs) "common")
    with (Some (method_phase1 normcase fs)).
  destruct (phase1_spec o0 w Hl0) as (o1 & Hsb & H1).
  change (args o0) with (args o) in H1.
  destruct (attr_names normcase fs (args o)) as [[[c lo] ro]|e].
  - destruct H1 as (-> & Hc1 & _). rewrite Hc1. cbn [as_list fst snd].
    rewrite (proj1 Hsb). change (args o0) with (args o).
    destruct (phase2 join fs (args o) c) as [[cd cf] cfu].
    eexists. split; [|split; [reflexivity|]].
    + same_but_tac. eapply same_but_trans.
      * eapply same_but_weaken; [|exact Hsb0]. compute_done.
      * eapply same_but_weaken; [|exact Hsb]. compute_done.
    + cbn [fst snd]. split; [|split]; by stored_tac.
  - destruct H1 as (-> & Hsb1). exists o1. split; [|split; [done|split]].
    + eapply same_but_trans.
      * eapply same_but_weaken; [|exact Hsb0]. compute_done.
      * eapply same_but_weaken; [|exact Hsb]. compute_done.
    + eapply same_but_trans.
      * eapply same_but_weaken; [|exact Hsb0]. compute_done.
      * eapply same_but_weaken; [|exact Hsb1]. compute_done.
    + destruct Hsb1 as [_ Hf]. rewrite !Hf by compute_done.
      subst o0. split; [|split]; by stored_tac.
Qed.

Lemma phase3_spec o w :
  stored o "left_list" = None → stored o "common" = None →
  stored o "common_files" = None →
  ∃ o', same_but o o' ["left_list"; "right_list"; "common"; "left_only";
                       "right_only"; "common_dirs"; "common_files";
                       "common_funny"; "same_files"; "diff_files";
                       "funny_files"]%string ∧
    match attr_files normcase join fs (args o) w with
    | (Ok r, w') =>
        method_phase3 normcase join fs o w = (Return tt, o', w') ∧
        stored o' "same_files" = Some (VList r.1.1) ∧
        stored o' "diff_files" = Some (VList r.1.2) ∧
        stored o' "funny_files" = Some (VList r.2)
    | (Raise e, w') =>
        method_phase3 normcase join fs o w = (Raised (Error e), o', w')
    end.
Proof.
  intros Hl Hc Hcf. unfold method_phase3, attr_files, bind, lift, phase3.
  rewrite getattr_with_unset by done. unfold getattr_hook.
  change (methodmap_get (methodmap2 normcase join fs) "common_files")
    with (Some (method_phase2 normcase join fs)).
  destruct (phase2_spec o w Hl Hc) as (o1 & Hsb & H2).
  destruct (attr_kinds normcase join fs (args o)) as [[[cd cf] cfu]|e].
  - destruct H2 as (-> & _ & Hcf1 & _). rewrite Hcf1. cbn [as_list fst snd].
    rewrite (proj1 Hsb).
    destruct (cmpfiles join fs (left (args o)) (right (args o)) cf true w)
      as [[[[same diff] funny]|e] w'].
    + eexists. split; [|split; [reflexivity|]].
      * same_but_tac. eapply same_but_weaken; [|exact Hsb]. compute_done.
      * cbn [fst snd]. split; [|split]; by stored_tac.
    + exists o1. split; [|done].
      eapply same_but_weaken; [|exact Hsb]. compute_done.
  - destruct H2 as (-> & _). exists o1. split; [|done].
    eapply same_but_weaken; [|exact Hsb]. compute_done.
Qed.

Lemma phase4_spec o w :
  stored o "left_list" = None → stored o "common" = None →
  stored o "common_dirs" = None →
  ∃ o',
    match attr_kinds normcase join fs (args o) with
    | Ok k =>
        method_phase4 normcase join fs o w = (Return tt, o', w) ∧
        stored o' "subdirs" = Some (VSubdirs (phase4 join (args o) k.1.1))
    | Raise e =>
        method_phase4 normcase join fs o w = (Raised (Error e), o', w) ∧
        stored o' "subdirs" = Some (VSubdirs [])
    end.
Proof.
  intros Hl Hc Hcd. unfold method_phase4.
  set (o0 := set_subdirs o []).
  assert (Hl0 : stored o0 "left_list" = None) by (subst o0; by stored_tac).
  assert (Hc0 : stored o0 "common" = None) by (subst o0; by stored_tac).
  assert (Hcd0 : stored o0 "common_dirs" = None) by (subst o0; by stored_tac).
  rewrite getattr_with_unset by done. unfold getattr_hook.
  change (methodmap_get (methodmap2 normcase join fs) "common_dirs")
    with (Some (method_phase2 normcase join fs)).
  destruct (phase2_spec o0 w Hl0 Hc0) as (o1 & Hsb & H2).
  change (args o0) with (args o) in H2.
  destruct (attr_kinds normcase join fs (args o)) as [[[cd cf] cfu]|e].
  - destruct H2 as (-> & Hcd1 & _). rewrite Hcd1. cbn [as_list fst snd].
    rewrite (proj1 Hsb). change (args o0) with (args o).
    eexists. split; [reflexivity|]. by stored_tac.
  - destruct H2 as (-> & _). exists o1. split; [done|].
    destruct Hsb as [_ Hf]. rewrite Hf by compute_done.
    subst o0. by stored_tac.
Qed.
End AttrSpecs.

Lemma getattr_with_outcome methodmap attr phase g o w :
  methodmap_get methodmap attr = Some phase → sets phase g → attr ∈ g →
  match getattr_with methodmap attr o w with
  | (Return v, o', _) => stored o' attr = Some v
  | (Raised e, _, _) => ∃ e', e = Error e'
  end.
Proof.
  intros Hget Hsets Ha. unfold getattr_with.
  destruct (stored o attr) eqn:Hs; [done|].
  unfold getattr_hook. rewrite Hget. specialize (Hsets o w).
  destruct (phase o w) as [[[[]|e] o'] w']; [|done].
  destruct (Hsets attr Ha) as [v Hv]. by rewrite Hv.
Qed.

Lemma methodmap_get_None methodmap attr :
  methodmap_get methodmap attr = None → attr ∉ methodmap.*1.
Proof.
  induction methodmap as [|[k ph] mm IH]; cbn [methodmap_get].
  - intros _. apply not_elem_of_nil.
  - destruct (decide (k = attr)) as [->|Hne]; [done|].
    intros H%IH. cbn. by apply not_elem_of_cons.
Qed.

Lemma methodmap_get_elem methodmap attr phase :
  methodmap_get methodmap attr = Some phase → attr ∈ methodmap.*1.
Proof.
  induction methodmap as [|[k ph] mm IH]; cbn [methodmap_get]; [done|].
  destruct (decide (k = attr)) as [->|Hne].
  - intros _. cbn. by left.
  - intros H%IH. cbn. by right.
Qed.

Ltac names_tac Ha :=
  repeat (apply elem_of_cons in Ha as [->|Ha]);
  [..|by apply elem_of_nil in Ha].

Section Behaviour.
Context (normcase : string → string) (join : string → string → string).
Context (fs : filesystem).

Lemma phase0_sets : sets (method_phase0 fs) ["left_list"; "right_list"]%string.
Proof.
  intros o w. destruct (phase0_spec fs o w) as (o' & _ & H).
  destruct (phase0 fs (args o)) as [[ll rl]|e].
  - destruct H as (-> & Hl & Hr). intros a Ha. names_tac Ha; by eexists.
  - rewrite H. by eexists.
Qed.

Lemma phase1_sets :
  sets (method_phase1 normcase fs) ["common"; "left_only"; "right_only"]%string.
Proof.
  intros o w. unfold method_phase1.
  pose proof (getattr_with_outcome (methodmap0 fs) "left_list" _ _ o w
                eq_refl phase0_sets ltac:(compute_done)) as H1.
  destruct (getattr_with (methodmap0 fs) "left_list" o w) as [[[v1|e] o1] w1]; [|done].
  pose proof (getattr_with_outcome (methodmap0 fs) "right_list" _ _ o1 w1
                eq_refl phase0_sets ltac:(compute_done)) as H2.
  destruct (getattr_with (methodmap0 fs) "right_list" o1 w1) as [[[v2|e] o2] w2];
    [|done].
  destruct (phase1 normcase (as_list v1) (as_list v2)) as [[[c lo] ro]|e];
    [|by eexists].
  intros a Ha. names_tac Ha; stored_tac; by eexists.
Qed.

Lemma phase2_sets :
  sets (method_phase2 normcase join fs)
    ["common_dirs"; "common_files"; "common_funny"]%string.
Proof.
  intros o w. unfold method_phase2.
  match goal with |- context [getattr_with _ _ ?o0 w] => generalize o0 end.
  intros o0.
  pose proof (getattr_with_outcome (methodmap1 normcase fs) "common" _ _ o0 w
                eq_refl phase1_sets ltac:(compute_done)) as H1.
  destruct (getattr_with (methodmap1 normcase fs) "common" o0 w)
    as [[[v1|e] o1] w1]; [|done].
  destruct (phase2 join fs (args o1) (as_list v1)) as [[cd cf] cfu].
  intros a Ha. names_tac Ha; stored_tac; by eexists.
Qed.

Lemma phase3_sets :
  sets (method_phase3 normcase join fs)
    ["same_files"; "diff_files"; "funny_files"]%string.
Proof.
  intros o w. unfold method_phase3.
  pose proof (getattr_with_outcome (methodmap2 normcase join fs) "common_files" _ _
                o w eq_refl phase2_sets ltac:(compute_done)) as H1.
  destruct (getattr_with (methodmap2 normcase join fs) "common_files" o w)
    as [[[v1|e] o1] w1]; [|done].
  destruct (cmpfiles join fs (left (args o1)) (right (args o1)) (as_list v1) true w1)
    as [[[[same diff] funny]|e] w2]; [|by eexists].
  intros a Ha. names_tac Ha; stored_tac; by eexists.
Qed.

Lemma phase4_sets : sets (method_phase4 normcase join fs) ["subdirs"%string].
Proof.
  intros o w. unfold method_phase4.
  pose proof (getattr_with_outcome (methodmap2 normcase join fs) "common_dirs" _ _
                (set_subdirs o []) w eq_refl phase2_sets ltac:(compute_done)) as H1.
  destruct (getattr_with (methodmap2 normcase join fs) "common_dirs"
              (set_subdirs o []) w) as [[[v1|e] o1] w1]; [|done].
  intros a Ha. names_tac Ha; stored_tac; by eexists.
Qed.

Lemma methodmap_groups g attr :
  g ∈ phase_groups → attr ∈ g →
  ∃ phase, methodmap_get (methodmap normcase join fs) attr = Some phase ∧
           sets phase g.
Proof.
  intros Hg Ha. unfold phase_groups in Hg. names_tac Hg; names_tac Ha;
    (eexists; split; [reflexivity|]);
    first [apply phase0_sets|apply phase1_sets|apply phase2_sets
          |apply phase3_sets|apply phase4_sets].
Qed.

Lemma methodmap_get_Some attr phase :
  methodmap_get (methodmap normcase join fs) attr = Some phase →
  ∃ g, g ∈ phase_groups ∧ attr ∈ g ∧ sets phase g.
Proof.
  unfold methodmap, methodmap2, methodmap1, methodmap0.
  cbn [app methodmap_get].
  repeat (destruct (decide (_ = attr)) as [<-|?];
    [intros [= <-]; eexists; split; [|split; [|
       first [apply phase0_sets|apply phase1_sets|apply phase2_sets
             |apply phase3_sets|apply phase4_sets]]]; compute_done|]).
  done.
Qed.

(** X19: what [__getattr__] can do.  Python calls it when the normal
    lookup of an attribute has failed.  For a name that is not in
    [methodmap] it raises [AttributeError] and changes nothing, and it
    raises [AttributeError] for no other name.  For a name of
    [methodmap], [__getattr__] and the read [self.attr] return the value
    that is stored afterwards or raise an exception of the comparison;
    [__getattr__] never calls itself without end, since every phase sets
    the names mapped to it. *)
Theorem getattr_outcome o w attr :
  (attr ∉ (methodmap normcase join fs).*1 →
   __getattr__ normcase join fs attr o w = (Raised (AttributeError attr), o, w)) ∧
  (attr ∈ (methodmap normcase join fs).*1 →
   match __getattr__ normcase join fs attr o w with
   | (Return v, o', _) => stored o' attr = Some v
   | (Raised (Error _), _, _) => True
   | (Raised (AttributeError _), _, _) => False
   | (Raised RecursionError, _, _) => False
   end ∧
   match getattr normcase join fs attr o w with
   | (Return v, o', _) => stored o' attr = Some v
   | (Raised (Error _), _, _) => True
   | (Raised (AttributeError _), _, _) => False
   | (Raised RecursionError, _, _) => False
   end).
Proof.
  split.
  - intros Hn. unfold __getattr__, getattr_hook.
    destruct (methodmap_get (methodmap normcase join fs) attr) as [phase|] eqn:Hget;
      [|done].
    by apply methodmap_get_elem in Hget.
  - intros Hin.
    assert (Hhook : match __getattr__ normcase join fs attr o w with
                    | (Return v, o', _) => stored o' attr = Some v
                    | (Raised (Error _), _, _) => True
                    | (Raised (AttributeError _), _, _) => False
                    | (Raised RecursionError, _, _) => False
                    end).
    { unfold __getattr__, getattr_hook.
      destruct (methodmap_get (methodmap normcase join fs) attr) as [phase|] eqn:Hget;
        [|by apply methodmap_get_None in Hget].
      destruct (methodmap_get_Some _ _ Hget) as (g & Hg & Ha & Hsets).
      specialize (Hsets o w).
      destruct (phase o w) as [[[[]|e] o'] w'].
      + destruct (Hsets attr Ha) as [v Hv]. by rewrite Hv.
      + by destruct Hsets as [e' ->]. }
    split; [exact Hhook|].
    unfold getattr, getattr_with. destruct (stored o attr) eqn:Hs; [done|].
    exact Hhook.
Qed.

(** X20: a computed attribute is kept.  After a read that had to compute
    [attr], the names of the same phase are all stored, and reading any
    of them again returns the stored value without touching the
    instance, the file system or the cache, whatever has happened to
    the two directories since. *)
Theorem computed_attributes_are_kept o w g attr v o1 w1 :
  g ∈ phase_groups → attr ∈ g → stored o attr = None →
  getattr normcase join fs attr o w = (Return v, o1, w1) →
  stored o1 attr = Some v ∧
  ∀ attr', attr' ∈ g →
    ∃ v', stored o1 attr' = Some v' ∧
          ∀ normcase' join' fs' w2,
            getattr normcase' join' fs' attr' o1 w2 = (Return v', o1, w2).
Proof.
  intros Hg Ha Hs. unfold getattr at 1. rewrite getattr_with_unset by done.
  unfold getattr_hook.
  destruct (methodmap_groups g attr Hg Ha) as (phase & -> & Hsets).
  specialize (Hsets o w).
  destruct (phase o w) as [[[[]|e] o'] w']; [|done].
  destruct (Hsets attr Ha) as [v0 Hv0]. rewrite Hv0. intros [= -> -> ->].
  split; [done|]. intros attr' Ha'. destruct (Hsets attr' Ha') as [v' Hv'].
  exists v'. split; [done|]. intros. by apply getattr_with_stored.
Qed.
End Behaviour.

Section Agreement.
Context (normcase : string → string) (join : string → string → string).
Context (fs : filesystem).

Lemma getattr_fresh attr phase self w :
  methodmap_get (methodmap normcase join fs) attr = Some phase →
  getattr normcase join fs attr (fresh self) w
  = match phase (fresh self) w with
    | (Raised e, o', w') => (Raised e, o', w')
    | (Return _, o', w') =>
        match stored o' attr with
        | Some v => (Return v, o', w')
        | None => (Raised RecursionError, o', w')
        end
    end.
Proof.
  intros H. unfold getattr. rewrite getattr_with_unset by apply stored_fresh.
  unfold getattr_hook. by rewrite H.
Qed.

(** X21: on an instance that [__init__] has just built, reading a name of
    [methodmap] gives what the functions of the directory comparison
    give: the same list or the same exception, and the same process
    state ([same_files], [diff_files] and [funny_files] are the three
    lists of [cmpfiles] on [common_files], [subdirs] holds the objects of
    [phase4] on [common_dirs]). *)
Theorem getattr_of_new_object self w attr r :
  (attr, r) ∈ attribute_table normcase join fs self w →
  ((getattr normcase join fs attr (fresh self) w).1.1,
   (getattr normcase join fs attr (fresh self) w).2) = r.
Proof.
  intros H. unfold attribute_table in H.
  pose proof (stored_fresh self) as Hf.
  repeat (apply elem_of_cons in H as [H|H]); [..|by apply elem_of_nil in H];
    injection H as -> ->;
    match goal with
    | |- context [getattr _ _ _ ?a _ _] => rewrite (getattr_fresh a _ self w eq_refl)
    end.
  1-2: destruct (phase0_spec fs (fresh self) w) as (o' & _ & H);
       change (args (fresh self)) with self in H;
       destruct (phase0 fs self) as [[ll rl]|e];
       [destruct H as (-> & Hl & Hr); by rewrite ?Hl, ?Hr|by rewrite H].
  1-3: destruct (phase1_spec normcase fs (fresh self) w (Hf _)) as (o' & _ & H);
       change (args (fresh self)) with self in H;
       destruct (attr_names normcase fs self) as [n|e];
       [destruct H as (-> & H1 & H2 & H3); by rewrite ?H1, ?H2, ?H3
       |destruct H as (-> & _); done].
  1-3: destruct (phase2_spec normcase join fs (fresh self) w (Hf _) (Hf _))
         as (o' & _ & H);
       change (args (fresh self)) with self in H;
       destruct (attr_kinds normcase join fs self) as [n|e];
       [destruct H as (-> & H1 & H2 & H3); by rewrite ?H1, ?H2, ?H3
       |destruct H as (-> & _); done].
  1-3: destruct (phase3_spec normcase join fs (fresh self) w (Hf _) (Hf _) (Hf _))
         as (o' & _ & H);
       change (args (fresh self)) with self in H;
       destruct (attr_files normcase join fs self w) as [[n|e] w'];
       [destruct H as (-> & H1 & H2 & H3); by rewrite ?H1, ?H2, ?H3
       |by rewrite H].
  destruct (phase4_spec normcase join fs (fresh self) w (Hf _) (Hf _) (Hf _))
    as (o' & H).
  change (args (fresh self)) with self in H.
  destruct (attr_kinds normcase join fs self) as [n|e];
    [destruct H as (-> & H1); by rewrite H1|destruct H as (-> & _); done].
Qed.

(** X22: a failed first read leaves empty lists behind.  When a
    directory cannot be listed, the first read of [common_dirs] on a new
    instance raises [OSError]; but [phase2] has set its three lists to
    [[]] before the failure, so from then on [common_dirs],
    [common_files] and [common_funny] read as [[]], hence [same_files],
    [diff_files] and [funny_files] as [[]] and [subdirs] as [{}],
    without any exception, whatever the two directories hold by then. *)
Theorem failed_listing_leaves_empty_lists self w :
  os_listdir fs (left self) = Raise OSError ∨
  os_listdir fs (right self) = Raise OSError →
  ∃ o1,
    getattr normcase join fs "common_dirs" (fresh self) w
      = (Raised (Error OSError), o1, w) ∧
    ∀ normcase' join' fs' w2,
      (∀ attr,
         attr ∈ ["common_dirs"; "common_files"; "common_funny";
                 "same_files"; "diff_files"; "funny_files"]%string →
         ∃ o2, getattr normcase' join' fs' attr o1 w2
               = (Return (VList []), o2, w2)) ∧
      (∃ o2, getattr normcase' join' fs' "subdirs" o1 w2
             = (Return (VSubdirs []), o2, w2)).
Proof.
  intros H.
  assert (Hk : attr_kinds normcase join fs self = Raise OSError).
  { unfold attr_kinds, attr_names, phase0. destruct H as [->| ->]; [done|].
    destruct (os_listdir fs (left self)) as [l|e] eqn:Hl; [done|].
    unfold os_listdir in Hl. destruct (fs !! left self ≫= n_list); [done|].
    by injection Hl as <-. }
  pose proof (stored_fresh self) as Hf.
  destruct (phase2_spec normcase join fs (fresh self) w (Hf _) (Hf _))
    as (o1 & _ & H2).
  change (args (fresh self)) with self in H2. rewrite Hk in H2.
  destruct H2 as (Hm & [_ Hsame] & Hcd & Hcf & Hcfu).
  exists o1. split.
  { rewrite (getattr_fresh "common_dirs" _ self w eq_refl). by rewrite Hm. }
  intros normcase' join' fs' w2.
  assert (H3 : method_phase3 normcase' join' fs' o1 w2
               = (Return tt,
                  set_list (set_list (set_list o1 "same_files" []) "diff_files" [])
                    "funny_files" [], w2)).
  { unfold method_phase3.
    by rewrite (getattr_with_stored _ "common_files" o1 w2 (VList [])). }
  assert (Hunset : ∀ a, a ∈ ["same_files"; "diff_files"; "funny_files";
                             "subdirs"]%string → stored o1 a = None).
  { intros a Ha. rewrite Hsame; [apply Hf|]. names_tac Ha; compute_done. }
  split.
  - intros attr Ha. names_tac Ha.
    1-3: eexists; by apply getattr_with_stored.
    all: unfold getattr; rewrite getattr_with_unset by (apply Hunset; compute_done);
         unfold getattr_hook;
         match goal with
         | |- context [methodmap_get ?m ?a] =>
             change (methodmap_get m a)
               with (Some (method_phase3 normcase' join' fs'))
         end;
         cbv beta iota; rewrite H3; stored_tac; by eexists.
  - unfold getattr. rewrite getattr_with_unset by (apply Hunset; compute_done).
    unfold getattr_hook.
    change (methodmap_get (methodmap normcase' join' fs') "subdirs")
      with (Some (method_phase4 normcase' join' fs')).
    cbv beta iota. unfold method_phase4.
    rewrite (getattr_with_stored _ "common_dirs" (set_subdirs o1 []) w2 (VList []))
      by (by stored_tac).
    stored_tac. by eexists.
Qed.
End Agreement.

Lemma getattr_of_new_object_witness :
  ((getattr id posix_join fs_tree "same_files"
      (fresh (dircmp_init "L" "R" None None)) world0).1.1,
   (getattr id posix_join fs_tree "same_files"
      (fresh (dircmp_init "L" "R" None None)) world0).2)
  = (outcome_of (λ r : buckets, VList r.1.1)
       (attr_files id posix_join fs_tree (dircmp_init "L" "R" None None) world0).1,
     (attr_files id posix_join fs_tree (dircmp_init "L" "R" None None) world0).2).
Proof.
  apply (getattr_of_new_object id posix_join fs_tree (dircmp_init "L" "R" None None)
           world0 "same_files").
  by apply (list_elem_of_lookup_2 _ 8).
Defined.

Lemma computed_attributes_are_kept_witness :
  ∃ v o1 w1,
    getattr id posix_join fs_tree "same_files"
      (fresh (dircmp_init "L" "R" None None)) world0 = (Return v, o1, w1) ∧
    stored o1 "same_files" = Some v ∧
    ∀ attr', attr' ∈ ["same_files"; "diff_files"; "funny_files"]%string →
      ∃ v', stored o1 attr' = Some v' ∧
            ∀ normcase' join' fs' w2,
              getattr normcase' join' fs' attr' o1 w2 = (Return v', o1, w2).
Proof.
  destruct (getattr id posix_join fs_tree "same_files"
              (fresh (dircmp_init "L" "R" None None)) world0)
    as [[[v|e] o1] w1] eqn:H; [|by vm_compute in H].
  exists v, o1, w1. split; [done|].
  apply (computed_attributes_are_kept id posix_join fs_tree
           (fresh (dircmp_init "L" "R" None None)) world0
           ["same_files"; "diff_files"; "funny_files"]%string "same_files" v o1 w1).
  - by apply (list_elem_of_lookup_2 _ 3).
  - by apply (list_elem_of_lookup_2 _ 0).
  - apply stored_fresh.
  - exact H.
Defined.

Lemma failed_listing_leaves_empty_lists_witness :
  ∃ o1,
    getattr id posix_join fs_tree "common_dirs"
      (fresh (dircmp_init "L" "nowhere" None None)) world0
      = (Raised (Error OSError), o1, world0) ∧
    ∀ normcase' join' fs' w2,
      (∀ attr,
         attr ∈ ["common_dirs"; "common_files"; "common_funny";
                 "same_files"; "diff_files"; "funny_files"]%string →
         ∃ o2, getattr normcase' join' fs' attr o1 w2 = (Return (VList []), o2, w2)) ∧
      (∃ o2, getattr normcase' join' fs' "subdirs" o1 w2
             = (Return (VSubdirs []), o2, w2)).
Proof.
  apply (failed_listing_leaves_empty_lists id posix_join fs_tree
           (dircmp_init "L" "nowhere" None None) world0).
  right. by vm_compute.
Defined.
